(** * Pentagon: the query executor of [src/pentagon.ts] over a versioned
      key-value store

    The eight verbs of [pentagon.ts] ([createImpl], [createManyImpl],
    [deleteImpl], [deleteManyImpl], [updateManyImpl], [updateImpl],
    [findManyImpl], [findFirstImpl]) are embedded as functions in a state and
    exception monad over the store.  What they import from [crud.ts] and
    [keys.ts] is an interface ([Imports]); the verbs and the theorems that
    only concern their orchestration are stated for every implementation of
    that interface.  One implementation, [SpecModel.spec_imports], follows the
    design document (Store Adapter, Key Encoder, Index Planner, Atomic
    Writer). *)

From stdpp Require Import base option list strings countable gmap fin_maps sorting.
From Stdlib Require Import ZArith NArith Lia.

Local Open Scope string_scope.
Local Open Scope list_scope.

(** ** Values, entities and physical keys *)

(** A store versionstamp.  Deno KV hands out an opaque, increasing string;
    it is represented by the commit number it encodes. *)
Definition Versionstamp : Type := N.

(** Field values of an entity, as JavaScript scalars.  [VStamp] is a
    versionstamp as a caller received it from the store. *)
Inductive Val : Type :=
  | VUndefined
  | VNull
  | VBool (b : bool)
  | VNum (n : Z)
  | VStr (s : string)
  | VStamp (v : Versionstamp).

#[global] Instance Val_eq_dec : EqDecision Val.
Proof. solve_decision. Defined.

Definition Val_to_sum (v : Val) : unit + (unit + (bool + (Z + (string + N)))) :=
  match v with
  | VUndefined => inl tt
  | VNull => inr (inl tt)
  | VBool b => inr (inr (inl b))
  | VNum n => inr (inr (inr (inl n)))
  | VStr s => inr (inr (inr (inr (inl s))))
  | VStamp v => inr (inr (inr (inr (inr v))))
  end.

Definition Val_of_sum (x : unit + (unit + (bool + (Z + (string + N))))) : Val :=
  match x with
  | inl _ => VUndefined
  | inr (inl _) => VNull
  | inr (inr (inl b)) => VBool b
  | inr (inr (inr (inl n))) => VNum n
  | inr (inr (inr (inr (inl s)))) => VStr s
  | inr (inr (inr (inr (inr v)))) => VStamp v
  end.

#[global] Instance Val_countable : Countable Val.
Proof.
  apply (inj_countable' Val_to_sum Val_of_sum).
  intros []; reflexivity.
Defined.

(** An entity (and a [where] or [data] argument): a JavaScript object, a
    finite map from field names to values. *)
Abbreviation Entity := (gmap string Val).

(** A physical key [[namespace, value]]. *)
Definition KvKey : Type := string * Val.

(** [Deno.KvEntry]: what a read of the store returns. *)
Record KvEntry : Type := mkKvEntry {
  key : KvKey;
  value : Entity;
  versionstamp : Versionstamp;
}.

(** The store: the entry under each physical key, and the number of the last
    commit. *)
Record Kv : Type := mkKv {
  entries : gmap KvKey (Entity * Versionstamp);
  clock : Versionstamp;
}.

(** ** Errors and the monad of the asynchronous verbs *)

(** Modelled from the spec: [errors.ts] is not among the sources.
    [PentagonUpdateError] is the class [pentagon.ts] throws, with its
    message; the other variants, for the failures of the imported modules,
    are the error taxonomy of the design document (section 7). *)
Inductive Error : Type :=
  | PentagonUpdateError (message : string)
  | SchemaMismatchError
  | DuplicateKeyError (k : KvKey)
  | ConflictError (k : KvKey)
  | NoMatchError
  | InvalidAccessKeyError.

#[global] Instance Error_eq_dec : EqDecision Error.
Proof. solve_decision. Defined.

(** The error of line 139 of [pentagon.ts], which the design document calls
    [UpdateZeroRowsError]. *)
Definition UpdateZeroRowsError : Error :=
  PentagonUpdateError "Updating zero elements.".

(** How a JavaScript call ends: it returns, or it throws. *)
Inductive Outcome (A : Type) : Type :=
  | Return (a : A)
  | Throw (e : Error).
Arguments Return {A} a.
Arguments Throw {A} e.

Definition is_Throw {A} (o : Outcome A) : bool :=
  match o with Throw _ => true | Return _ => false end.

Definition outcome_map {A B} (f : A → B) (o : Outcome A) : Outcome B :=
  match o with
  | Return a => Return (f a)
  | Throw e => Throw e
  end.

(** An [async] function over the store handle: it runs from a store state and
    ends in a store state with an outcome. *)
Definition M (A : Type) : Type := Kv → Kv * Outcome A.

Definition ret {A} (a : A) : M A := λ kv, (kv, Return a).
Definition throw {A} (e : Error) : M A := λ kv, (kv, Throw e).

(** [await]: the continuation runs on a returned value, a thrown error
    propagates with the store as the callee left it. *)
Definition bind {A B} (m : M A) (f : A → M B) : M B :=
  λ kv, match m kv with
        | (kv', Return a) => f a kv'
        | (kv', Throw e) => (kv', Throw e)
        end.

(** A synchronous call that may throw. *)
Definition lift {A} (o : Outcome A) : M A := λ kv, (kv, o).

Declare Scope kv_scope.
Delimit Scope kv_scope with kv.
Notation "'let*' x := m 'in' k" := (bind m (λ x, k))
  (at level 10, x name, m at level 100, k at level 200) : kv_scope.
Local Open Scope kv_scope.

(** [a ?? b] *)
Definition nullish (a : option Val) (b : Val) : Val :=
  match a with
  | None | Some VUndefined | Some VNull => b
  | Some v => v
  end.

(** ** Table definitions and the arguments of the verbs *)

(** Modelled from the spec: [types.ts] is not among the sources.  A table
    definition maps each field name to its description (section 6); the
    declared type of a field plays no part in key resolution. *)
Record FieldDescription : Type := mkField {
  isPrimaryKey : bool;
  isIndex : bool;
}.

#[global] Instance FieldDescription_eq_dec : EqDecision FieldDescription.
Proof. solve_decision. Defined.

(** The schema lists the fields in declaration order. *)
Definition Schema : Type := list (string * FieldDescription).

Record TableDefinition : Type := mkTable {
  schema : Schema;
}.

(** Modelled from the spec: [types.ts] is not among the sources.  What
    [create], [update] and [findMany] hand back is a Record: an entity with
    its versionstamp. *)
Definition Item : Type := Entity * Versionstamp.

Module CreateArgs.
Record t : Type := mk {
  select : option (list string);
  data : Entity;
}.
End CreateArgs.

Module CreateManyArgs.
Record t : Type := mk {
  select : option (list string);
  data : list Entity;
}.
End CreateManyArgs.

(** [where] is optional; [None] is [undefined]. *)
Module QueryArgs.
Record t : Type := mk {
  where_ : option Entity;
  select : option (list string);
}.
End QueryArgs.

Module UpdateArgs.
Record t : Type := mk {
  where_ : option Entity;
  data : Entity;
  select : option (list string);
}.
End UpdateArgs.

(** The elements of [updatedItems] in [updateManyImpl]. *)
Module UpdatedItem.
Record t : Type := mk {
  key : KvKey;
  value : Entity;
  versionstamp : Val;
}.
End UpdatedItem.

(** ** The imports of [pentagon.ts]

    [schemaToKeys], [keysToIndexes] and [whereToKeys] come from [keys.ts];
    [create], [findMany], [remove] and [update] from [crud.ts].  The two
    synchronous helpers may throw; the others are asynchronous and take the
    store handle. *)
Class Imports : Type := {
  Keys : Type;
  IndexKeys : Type;
  DeleteResponse : Type;
  schemaToKeys : Schema → Entity → Outcome Keys;
  keysToIndexes : string → Keys → Outcome IndexKeys;
  whereToKeys : string → IndexKeys → Entity → M (list KvEntry);
  create : Entity → IndexKeys → M Item;
  findMany : string → TableDefinition → QueryArgs.t → M (list Item);
  remove : list KvKey → M DeleteResponse;
  update : list Entity → list KvKey → M (list Item);
}.

(** ** The verbs of [pentagon.ts] *)

Section Verbs.
Context `{Imports}.

Definition createImpl (tableName : string) (tableDefinition : TableDefinition)
    (createArgs : CreateArgs.t) : M Item :=
  let* keys := lift (schemaToKeys (schema tableDefinition) (CreateArgs.data createArgs)) in
  let* indexKeys := lift (keysToIndexes tableName keys) in
  create (CreateArgs.data createArgs) indexKeys.

(** The [for] loop of [createManyImpl] from index [i] on: [rest] is
    [createManyArgs.data] from [i], [createdItems] the array built so far. *)
Fixpoint createManyLoop (tableName : string) (tableDefinition : TableDefinition)
    (select : option (list string)) (rest : list Entity)
    (createdItems : list Item) : M (list Item) :=
  match rest with
  | [] => ret createdItems
  | data_i :: rest' =>
      let createArgs := CreateArgs.mk select data_i in
      let* created := createImpl tableName tableDefinition createArgs in
      createManyLoop tableName tableDefinition select rest' (createdItems ++ [created])
  end.

Definition createManyImpl (tableName : string) (tableDefinition : TableDefinition)
    (createManyArgs : CreateManyArgs.t) : M (list Item) :=
  createManyLoop tableName tableDefinition (CreateManyArgs.select createManyArgs)
    (CreateManyArgs.data createManyArgs) [].

(** [queryArgs.where ?? []] and [queryArgs.where ?? {}]: an empty array and an
    empty object both have no field. *)
Definition deleteImpl (tableName : string) (tableDefinition : TableDefinition)
    (queryArgs : QueryArgs.t) : M DeleteResponse :=
  let* keys := lift (schemaToKeys (schema tableDefinition)
                       (default ∅ (QueryArgs.where_ queryArgs))) in
  let* indexKeys := lift (keysToIndexes tableName keys) in
  let* foundItems := whereToKeys tableName indexKeys
                       (default ∅ (QueryArgs.where_ queryArgs)) in
  remove (fmap key foundItems).

Definition deleteManyImpl (tableName : string) (tableDefinition : TableDefinition)
    (queryArgs : QueryArgs.t) : M DeleteResponse :=
  let* keys := lift (schemaToKeys (schema tableDefinition)
                       (default ∅ (QueryArgs.where_ queryArgs))) in
  let* indexKeys := lift (keysToIndexes tableName keys) in
  let* foundItems := whereToKeys tableName indexKeys
                       (default ∅ (QueryArgs.where_ queryArgs)) in
  remove (fmap key foundItems).

(** The arrow function of the [// Merge] step.  In
    [{...existingItem.value, ...updateArgs.data}] the later spread wins, which
    is the left-biased union with [data] on the left. *)
Definition merge (updateArgs : UpdateArgs.t) (existingItem : KvEntry) : UpdatedItem.t :=
  {| UpdatedItem.key := key existingItem;
     UpdatedItem.value := UpdateArgs.data updateArgs ∪ value existingItem;
     UpdatedItem.versionstamp :=
       nullish (UpdateArgs.data updateArgs !! "versionstamp")
               (VStamp (versionstamp existingItem)) |}.

Definition updateManyImpl (tableName : string) (tableDefinition : TableDefinition)
    (updateArgs : UpdateArgs.t) : M (list Item) :=
  let* keys := lift (schemaToKeys (schema tableDefinition)
                       (default ∅ (UpdateArgs.where_ updateArgs))) in
  let* indexKeys := lift (keysToIndexes tableName keys) in
  let* foundItems := whereToKeys tableName indexKeys
                       (default ∅ (UpdateArgs.where_ updateArgs)) in
  if decide (length foundItems = 0%nat) then
    throw (PentagonUpdateError "Updating zero elements.")
  else
    let updatedItems := fmap (merge updateArgs) foundItems in
    update (fmap UpdatedItem.value updatedItems) (fmap key foundItems).

(** [(await updateManyImpl(...))?.[0]] *)
Definition updateImpl (tableName : string) (tableDefinition : TableDefinition)
    (updateArgs : UpdateArgs.t) : M (option Item) :=
  let* updated := updateManyImpl tableName tableDefinition updateArgs in
  ret (head updated).

Definition findManyImpl (tableName : string) (tableDefinition : TableDefinition)
    (queryArgs : QueryArgs.t) : M (list Item) :=
  findMany tableName tableDefinition queryArgs.

(** [(await findMany(...))?.[0]] *)
Definition findFirstImpl (tableName : string) (tableDefinition : TableDefinition)
    (queryArgs : QueryArgs.t) : M (option Item) :=
  let* found := findMany tableName tableDefinition queryArgs in
  ret (head found).

End Verbs.

(** ** An implementation of the imports after the design document *)

Module SpecModel.

(** *** Store Adapter *)

(** A check asserts the versionstamp of a key, or ([None]) its absence; a
    mutation sets a key or ([None]) deletes it. *)
Definition Check : Type := KvKey * option Versionstamp.
Definition Mutation : Type := KvKey * option Entity.

Inductive CommitResult : Type :=
  | Committed (newVersionToken : Versionstamp)
  | Conflict (k : KvKey).

(** Modelled from the spec: the Store Adapter is an external dependency;
    [get(key)] returns the value and versionstamp under a key, if any. *)
Definition get (k : KvKey) (kv : Kv) : option (Entity * Versionstamp) :=
  entries kv !! k.

Definition check_holds (kv : Kv) (c : Check) : bool :=
  bool_decide (snd <$> get c.1 kv = c.2).

Definition apply_mutation (v : Versionstamp)
    (m : gmap KvKey (Entity * Versionstamp)) (mu : Mutation) :
    gmap KvKey (Entity * Versionstamp) :=
  match mu.2 with
  | Some e => <[mu.1 := (e, v)]> m
  | None => delete mu.1 m
  end.

(** Modelled from the spec: the Store Adapter is an external dependency;
    [atomicApply(checks, mutations)] commits every mutation under one new
    versionstamp when every check holds, and otherwise reports a conflict (at
    the first check that fails) and changes nothing. *)
Definition atomicApply (checks : list Check) (mutations : list Mutation)
    (kv : Kv) : Kv * CommitResult :=
  match list_find (λ c, check_holds kv c = false) checks with
  | Some (_, c) => (kv, Conflict c.1)
  | None =>
      let v := N.succ (clock kv) in
      ({| entries := foldl (apply_mutation v) (entries kv) mutations;
          clock := v |}, Committed v)
  end.

(** The order of the keys: by namespace, then by value; values of one type by
    their own order, values of different types by type. *)
Definition val_rank (v : Val) : N :=
  match v with
  | VUndefined => 0 | VNull => 1 | VBool _ => 2
  | VNum _ => 3 | VStr _ => 4 | VStamp _ => 5
  end.

Definition val_leb (a b : Val) : bool :=
  match a, b with
  | VBool x, VBool y => implb x y
  | VNum x, VNum y => (x <=? y)%Z
  | VStr x, VStr y => String.leb x y
  | VStamp x, VStamp y => (x <=? y)%N
  | _, _ => (val_rank a <=? val_rank b)%N
  end.

Definition key_leb (a b : KvKey) : bool :=
  match String.compare a.1 b.1 with
  | Lt => true
  | Gt => false
  | Eq => val_leb a.2 b.2
  end.

Definition entry_le (a b : KvEntry) : Prop := key_leb (key a) (key b) = true.

#[global] Instance entry_le_dec : RelDecision entry_le.
Proof. intros a b. unfold entry_le. apply _. Defined.

(** Modelled from the spec: the Store Adapter is an external dependency;
    [list(keyPrefix)] yields the entries of a namespace in key order. *)
Definition list_prefix (keyPrefix : string) (kv : Kv) : list KvEntry :=
  merge_sort entry_le
    (omap (λ '(k, (e, v)),
             if decide (k.1 = keyPrefix) then Some (mkKvEntry k e v) else None)
          (map_to_list (entries kv))).

(** *** Key Encoder *)

(** Modelled from the spec: [types.ts] is not among the sources.  An access
    key is a primary-key value, or one secondary-index field with a value. *)
Inductive AccessKey : Type :=
  | primaryKey (v : Val)
  | secondaryKey (field : string) (v : Val).

(** Modelled from the spec: the Key Encoder of [keys.ts].  The access keys a
    value has under a schema: the primary key first, then one key per
    secondary-index field in declaration order.  A key field that the value
    does not have contributes no key. *)
Definition accessKeys (schema : Schema) (values : Entity) : list AccessKey :=
  omap (λ '(f, d), if isPrimaryKey d then primaryKey <$> values !! f else None) schema
  ++ omap (λ '(f, d), if isIndex d && negb (isPrimaryKey d)
                      then secondaryKey f <$> values !! f else None) schema.

(** Modelled from the spec: [schemaToKeys] of [keys.ts] is the first half of
    the Key Encoder (section 4.1).  [pentagon.ts] passes [where] objects
    through it as well as entities, so it is total on values that lack key
    fields. *)
Definition schemaToKeys (schema : Schema) (values : Entity) : Outcome (list AccessKey) :=
  Return (accessKeys schema values).

Definition physicalKey (tableName : string) (k : AccessKey) : KvKey :=
  match k with
  | primaryKey v => (tableName, v)
  | secondaryKey f v => (tableName +:+ "_by_" +:+ f, v)
  end.

(** Modelled from the spec: [keysToIndexes] of [keys.ts] is the second half
    of the Key Encoder: the physical key of the primary space [table] or of
    the index space [table_by_field]. *)
Definition keysToIndexes (tableName : string) (keys : list AccessKey) : Outcome (list KvKey) :=
  Return (fmap (physicalKey tableName) keys).

(** Modelled from the spec: [encodeKeys] of the Key Encoder as a whole, the
    physical keys an entity occupies. *)
Definition encodeKeys (tableName : string) (tableDefinition : TableDefinition)
    (entity : Entity) : list KvKey :=
  fmap (physicalKey tableName) (accessKeys (schema tableDefinition) entity).

(** The namespace of a key field. *)
Definition namespace (tableName : string) (f : string) (d : FieldDescription) : string :=
  if isPrimaryKey d then tableName else tableName +:+ "_by_" +:+ f.

(** *** Index Planner *)

Inductive LookupPlan : Type :=
  | DirectLookup (k : KvKey)
  | ScanAndFilter (keyPrefix : string) (predicate : Entity).

(** Modelled from the spec: the Index Planner of [keys.ts] (section 4.2).  A
    predicate on one field that is the primary key or an index is a point
    read; any other predicate is a scan of the primary space. *)
Definition plan (tableName : string) (indexKeys : list KvKey) (where_ : Entity) : LookupPlan :=
  match indexKeys with
  | [k] => if decide (size where_ = 1%nat) then DirectLookup k
           else ScanAndFilter tableName where_
  | _ => ScanAndFilter tableName where_
  end.

(** Equality on every field the predicate constrains. *)
Definition matches (predicate e : Entity) : bool :=
  bool_decide (map_Forall (λ f v, e !! f = Some v) predicate).

(** Modelled from the spec: [execute(plan, store)] of the Index Planner. *)
Definition execute (p : LookupPlan) (kv : Kv) : list KvEntry :=
  match p with
  | DirectLookup k =>
      match get k kv with
      | Some (e, v) => [mkKvEntry k e v]
      | None => []
      end
  | ScanAndFilter keyPrefix predicate =>
      filter (λ i, matches predicate (value i) = true) (list_prefix keyPrefix kv)
  end.

(** Modelled from the spec: [whereToKeys] of [keys.ts] resolves a predicate
    to the existing records through the Index Planner; it only reads. *)
Definition whereToKeys (tableName : string) (indexKeys : list KvKey) (where_ : Entity) :
    M (list KvEntry) :=
  λ kv, (kv, Return (execute (plan tableName indexKeys where_) kv)).

(** *** Atomic Writer *)

(** Modelled from the spec: [create] of [crud.ts] is [writeCreate] (section
    4.3): one batch that checks every key absent and sets every key to the
    entity; a conflict is a [DuplicateKeyError] naming the first conflicting
    key. *)
Definition create (data : Entity) (indexKeys : list KvKey) : M Item :=
  λ kv, match atomicApply (fmap (λ k, (k, None)) indexKeys)
                          (fmap (λ k, (k, Some data)) indexKeys) kv with
        | (kv', Committed v) => (kv', Return (data, v))
        | (kv', Conflict k) => (kv', Throw (DuplicateKeyError k))
        end.

(** Modelled from the spec: [update] of [crud.ts] applies [writeUpdate] per
    record.  The call in [updateManyImpl] passes the merged values and the
    keys, not the records read, so the batch of a record checks the
    versionstamp now under its key (a record deleted meanwhile is a
    [ConflictError]) and sets the key to the merged entity. *)
Fixpoint update (items : list Entity) (keys : list KvKey) : M (list Item) :=
  match items, keys with
  | item :: items', k :: keys' =>
      λ kv, match get k kv with
            | None => (kv, Throw (ConflictError k))
            | Some (_, v0) =>
                match atomicApply [(k, Some v0)] [(k, Some item)] kv with
                | (kv', Committed v) =>
                    (let* updated := update items' keys' in
                     ret ((item, v) :: updated)) kv'
                | (kv', Conflict k') => (kv', Throw (ConflictError k'))
                end
            end
  | _, _ => ret []
  end.

(** Modelled from the spec: [remove] of [crud.ts] applies [writeDelete] per
    record.  The call passes the keys only, so the batch of a record checks
    the versionstamp now under its key and deletes the key. *)
Fixpoint remove (keys : list KvKey) : M unit :=
  match keys with
  | [] => ret tt
  | k :: keys' =>
      λ kv, match get k kv with
            | None => (kv, Throw (ConflictError k))
            | Some (_, v0) =>
                match atomicApply [(k, Some v0)] [(k, None)] kv with
                | (kv', Committed _) => remove keys' kv'
                | (kv', Conflict k') => (kv', Throw (ConflictError k'))
                end
            end
  end.

(** [select] limits the fields that are returned. *)
Definition project (select : option (list string)) (e : Entity) : Entity :=
  match select with
  | None => e
  | Some fields => filter (λ fv, fv.1 ∈ fields) e
  end.

(** Modelled from the spec: [findMany] of [crud.ts] is Planner resolution
    only: the matching entities with their versionstamps, in the order of the
    resolution. *)
Definition findMany (tableName : string) (tableDefinition : TableDefinition)
    (queryArgs : QueryArgs.t) : M (list Item) :=
  let where_ := default ∅ (QueryArgs.where_ queryArgs) in
  let* keys := lift (schemaToKeys (schema tableDefinition) where_) in
  let* indexKeys := lift (keysToIndexes tableName keys) in
  let* foundItems := whereToKeys tableName indexKeys where_ in
  ret (fmap (λ i, (project (QueryArgs.select queryArgs) (value i), versionstamp i))
           foundItems).

#[export] Instance spec_imports : Imports :=
  Build_Imports (list AccessKey) (list KvKey) unit
    schemaToKeys keysToIndexes whereToKeys create findMany remove update.

End SpecModel.

(** ** What a failed [createMany] has applied *)

(** The items whose [create] committed before the first failure of the loop
    of [createManyImpl], run from [kv]. *)
Fixpoint appliedItems `{Imports} (tableName : string) (tableDefinition : TableDefinition)
    (select : option (list string)) (rest : list Entity) (kv : Kv) : list Item :=
  match rest with
  | [] => []
  | data_i :: rest' =>
      match createImpl tableName tableDefinition (CreateArgs.mk select data_i) kv with
      | (kv', Return created) =>
          created :: appliedItems tableName tableDefinition select rest' kv'
      | (_, Throw _) => []
      end
  end.

(** ** The table and the stores of the scenarios *)

Module Scenario.

(** Table [users]: primary key [id], secondary index [email]. *)
Definition usersDef : TableDefinition :=
  mkTable [("id", mkField true false); ("email", mkField false true);
           ("name", mkField false false)].

Definition u1 : Entity := {[ "id" := VStr "1"; "email" := VStr "a@x.com" ]}.
Definition u2 : Entity := {[ "id" := VStr "2"; "email" := VStr "a@x.com" ]}.
Definition u3 : Entity := {[ "id" := VStr "3"; "email" := VStr "c@x.com" ]}.
Definition u1b : Entity := {[ "id" := VStr "1"; "email" := VStr "b@x.com" ]}.
Definition u1z : Entity := {[ "id" := VStr "1"; "email" := VStr "z@x.com" ]}.

(** The empty store, the store after creating [u1], and after creating [u1]
    and then [u3]. *)
Definition kv0 : Kv := mkKv ∅ 0%N.

Definition kvA : Kv :=
  mkKv {[ ("users", VStr "1") := (u1, 1%N);
          ("users_by_email", VStr "a@x.com") := (u1, 1%N) ]} 1%N.

Definition kvB : Kv :=
  mkKv {[ ("users", VStr "1") := (u1, 1%N);
          ("users_by_email", VStr "a@x.com") := (u1, 1%N);
          ("users", VStr "3") := (u3, 2%N);
          ("users_by_email", VStr "c@x.com") := (u3, 2%N) ]} 2%N.

(** [kvB] after the update of the record of key [id = 1] to [u1b]. *)
Definition kvC : Kv :=
  mkKv {[ ("users", VStr "1") := (u1b, 3%N);
          ("users_by_email", VStr "a@x.com") := (u1, 1%N);
          ("users", VStr "3") := (u3, 2%N);
          ("users_by_email", VStr "c@x.com") := (u3, 2%N) ]} 3%N.

(** [kvB] after the removal of the key [("users", "1")]. *)
Definition kvD : Kv :=
  mkKv {[ ("users_by_email", VStr "a@x.com") := (u1, 1%N);
          ("users", VStr "3") := (u3, 2%N);
          ("users_by_email", VStr "c@x.com") := (u3, 2%N) ]} 3%N.

Definition entry1 : KvEntry := mkKvEntry ("users", VStr "1") u1 1%N.

Definition whereId (id : string) : option Entity := Some {[ "id" := VStr id ]}.

(** [update({where: {id: "1"}, data: {email: "b@x.com"}})] and the same on an
    id that no record has. *)
Definition updateEmail (id : string) : UpdateArgs.t :=
  UpdateArgs.mk (whereId id) {[ "email" := VStr "b@x.com" ]} None.

(** An update whose [data] carries a versionstamp of its own. *)
Definition updateStamped : UpdateArgs.t :=
  UpdateArgs.mk (whereId "1")
    {[ "email" := VStr "b@x.com"; "versionstamp" := VStamp 7%N ]} None.

End Scenario.

(** ** The database object of [createPentagon] *)

(** The [methods] object of one table: each method is the verb with the
    store handle, the name and the definition of the table already given. *)
Module PentagonMethods.
Record t {H : Imports} : Type := mk {
  create : CreateArgs.t → M Item;
  createMany : CreateManyArgs.t → M (list Item);
  delete : QueryArgs.t → M DeleteResponse;
  deleteMany : QueryArgs.t → M DeleteResponse;
  update : UpdateArgs.t → M (option Item);
  updateMany : UpdateArgs.t → M (list Item);
  findMany : QueryArgs.t → M (list Item);
  findFirst : QueryArgs.t → M (option Item);
}.
End PentagonMethods.

(** A property of the object [createPentagon] returns: the methods of a
    table, or the [getKv] accessor. *)
Inductive Property {H : Imports} (KvHandle : Type) : Type :=
  | Methods (methods : PentagonMethods.t)
  | GetKv (getKv : unit → KvHandle).
Arguments Methods {H KvHandle} methods.
Arguments GetKv {H KvHandle} getKv.

Section Pentagon.
Context `{Imports} {KvHandle : Type}.

(** The object literal [methods] in [createPentagon].  The store behind the
    handle [kv] is the state of [M]. *)
Definition tableMethods (tableName : string) (tableDefinition : TableDefinition) :
    PentagonMethods.t :=
  {| PentagonMethods.create := λ createArgs,
       createImpl tableName tableDefinition createArgs;
     PentagonMethods.createMany := λ createManyArgs,
       createManyImpl tableName tableDefinition createManyArgs;
     PentagonMethods.delete := λ queryArgs,
       deleteImpl tableName tableDefinition queryArgs;
     PentagonMethods.deleteMany := λ queryArgs,
       deleteManyImpl tableName tableDefinition queryArgs;
     PentagonMethods.update := λ queryArgs,
       updateImpl tableName tableDefinition queryArgs;
     PentagonMethods.updateMany := λ queryArgs,
       updateManyImpl tableName tableDefinition queryArgs;
     PentagonMethods.findMany := λ queryArgs,
       findManyImpl tableName tableDefinition queryArgs;
     PentagonMethods.findFirst := λ queryArgs,
       findFirstImpl tableName tableDefinition queryArgs |}.

(** [Object.fromEntries(Object.entries(schema).map(...))], then the
    assignment [result.getKv = () => kv]. *)
Definition createPentagon (kv : KvHandle) (schema : gmap string TableDefinition) :
    gmap string (Property KvHandle) :=
  let result : gmap string (Property KvHandle) :=
    list_to_map
      ((λ '(tableName, tableDefinition),
          (tableName, Methods (tableMethods tableName tableDefinition)))
         <$> map_to_list schema) in
  <["getKv" := GetKv (λ _, kv)]> result.

(** [db.getKv()]; [None] is the [TypeError] of calling what is not a
    function. *)
Definition getKvInstance (db : gmap string (Property KvHandle)) : option KvHandle :=
  match db !! "getKv" with
  | Some (GetKv getKv) => Some (getKv tt)
  | _ => None
  end.

End Pentagon.

(** ** Imports that fail during key resolution *)

Module StrictModel.

(** Modelled from the spec: the Key Encoder of section 4.1 in its strict
    reading, which fails with [SchemaMismatchError] when the value lacks the
    primary-key field or a declared index field. *)
Definition schemaToKeys (schema : Schema) (values : Entity) :
    Outcome (list SpecModel.AccessKey) :=
  if forallb (λ '(f, d), negb (isPrimaryKey d || isIndex d)
                         || bool_decide (is_Some (values !! f))) schema
  then Return (SpecModel.accessKeys schema values)
  else Throw SchemaMismatchError.

(** Modelled from the spec: a lookup to which neither a primary nor a
    secondary key is supplied is an [InvalidAccessKeyError] (section 7). *)
Definition whereToKeys (tableName : string) (indexKeys : list KvKey) (where_ : Entity) :
    M (list KvEntry) :=
  match indexKeys with
  | [] => throw InvalidAccessKeyError
  | _ :: _ => SpecModel.whereToKeys tableName indexKeys where_
  end.

(** The modelled imports with the strict Key Encoder. *)
Definition strict_keys_imports : Imports :=
  Build_Imports (list SpecModel.AccessKey) (list KvKey) unit
    schemaToKeys SpecModel.keysToIndexes SpecModel.whereToKeys SpecModel.create
    SpecModel.findMany SpecModel.remove SpecModel.update.

(** The modelled imports with the strict lookup. *)
Definition strict_lookup_imports : Imports :=
  Build_Imports (list SpecModel.AccessKey) (list KvKey) unit
    SpecModel.schemaToKeys SpecModel.keysToIndexes whereToKeys SpecModel.create
    SpecModel.findMany SpecModel.remove SpecModel.update.

End StrictModel.

(** An entity conforms to a table definition when it has the primary-key
    field and every declared index field; this is the test of the strict Key
    Encoder. *)
Definition conforms (schema : Schema) (entity : Entity) : bool :=
  forallb (λ '(f, d), negb (isPrimaryKey d || isIndex d)
                      || bool_decide (is_Some (entity !! f))) schema.

Module ScenarioExtra.
Import Scenario.

(** An entity without the primary-key field [id]. *)
Definition noId : Entity := {[ "email" := VStr "n@x.com" ]}.

(** The record of [u1] as read under another versionstamp. *)
Definition entry1' : KvEntry := mkKvEntry ("users", VStr "1") u1 5%N.

(** A database schema with the one table [users]. *)
Definition dbSchema : gmap string TableDefinition := {[ "users" := usersDef ]}.

End ScenarioExtra.

(** * Properties of the verbs, for every implementation of the imports *)

Section VerbFacts.
Context `{Imports}.
Implicit Types (tableName : string) (tableDefinition : TableDefinition).
Implicit Types (kv : Kv) (foundItems : list KvEntry).

Lemma bind_Return {A B} (m : M A) (f : A → M B) kv kv' a :
  m kv = (kv', Return a) → bind m f kv = f a kv'.
Proof. intros Hm. unfold bind. rewrite Hm. reflexivity. Qed.

Lemma bind_Throw {A B} (m : M A) (f : A → M B) kv kv' e :
  m kv = (kv', Throw e) → bind m f kv = (kv', Throw e).
Proof. intros Hm. unfold bind. rewrite Hm. reflexivity. Qed.

Lemma bind_ret_outcome {A B} (m : M A) (g : A → B) kv kv' o :
  m kv = (kv', o) → bind m (λ a, ret (g a)) kv = (kv', outcome_map g o).
Proof. intros Hm. unfold bind. rewrite Hm. destruct o; reflexivity. Qed.

(** Once [where] is resolved, [updateManyImpl] is the guard followed by one
    call of [update]. *)
Lemma updateManyImpl_resolved tableName tableDefinition updateArgs kv keys indexKeys kv1 foundItems :
  schemaToKeys (schema tableDefinition) (default ∅ (UpdateArgs.where_ updateArgs)) = Return keys →
  keysToIndexes tableName keys = Return indexKeys →
  whereToKeys tableName indexKeys (default ∅ (UpdateArgs.where_ updateArgs)) kv
    = (kv1, Return foundItems) →
  updateManyImpl tableName tableDefinition updateArgs kv =
    match foundItems with
    | [] => (kv1, Throw UpdateZeroRowsError)
    | _ :: _ =>
        update (fmap (λ i, UpdateArgs.data updateArgs ∪ value i) foundItems)
               (fmap key foundItems) kv1
    end.
Proof.
  intros Hk Hi Hw. unfold updateManyImpl.
  rewrite (bind_Return _ _ kv kv keys) by (unfold lift; by rewrite Hk).
  rewrite (bind_Return _ _ kv kv indexKeys) by (unfold lift; by rewrite Hi).
  rewrite (bind_Return _ _ _ _ _ Hw).
  destruct foundItems as [|i rest]; [reflexivity|].
  rewrite decide_False by (simpl; lia).
  rewrite <- list_fmap_compose. reflexivity.
Qed.

(** Once [where] is resolved, [deleteManyImpl] is one call of [remove]. *)
Lemma deleteManyImpl_resolved tableName tableDefinition queryArgs kv keys indexKeys kv1 foundItems :
  schemaToKeys (schema tableDefinition) (default ∅ (QueryArgs.where_ queryArgs)) = Return keys →
  keysToIndexes tableName keys = Return indexKeys →
  whereToKeys tableName indexKeys (default ∅ (QueryArgs.where_ queryArgs)) kv
    = (kv1, Return foundItems) →
  deleteManyImpl tableName tableDefinition queryArgs kv = remove (fmap key foundItems) kv1.
Proof.
  intros Hk Hi Hw. unfold deleteManyImpl.
  rewrite (bind_Return _ _ kv kv keys) by (unfold lift; by rewrite Hk).
  rewrite (bind_Return _ _ kv kv indexKeys) by (unfold lift; by rewrite Hi).
  by rewrite (bind_Return _ _ _ _ _ Hw).
Qed.

(** The loop of [createManyImpl] either runs to the end, or stops at the
    first item whose [create] throws, with that error and the store as that
    [create] left it. *)
Lemma createManyLoop_run tableName tableDefinition select rest : ∀ createdItems kv,
  let applied := appliedItems tableName tableDefinition select rest kv in
  (length applied = length rest ∧
   ∃ kv', createManyLoop tableName tableDefinition select rest createdItems kv
            = (kv', Return (createdItems ++ applied)))
  ∨
  (∃ data_k kvk kv' e,
     rest !! length applied = Some data_k ∧
     createManyLoop tableName tableDefinition select (take (length applied) rest)
       createdItems kv = (kvk, Return (createdItems ++ applied)) ∧
     createImpl tableName tableDefinition (CreateArgs.mk select data_k) kvk = (kv', Throw e) ∧
     createManyLoop tableName tableDefinition select rest createdItems kv = (kv', Throw e)).
Proof.
  induction rest as [|d rest IH]; intros acc kv; simpl.
  - left. split; [reflexivity|]. exists kv. unfold ret. by rewrite app_nil_r.
  - destruct (createImpl tableName tableDefinition (CreateArgs.mk select d) kv)
      as [kv1 [r|e]] eqn:Hc.
    + rewrite (bind_Return _ _ _ _ _ Hc). simpl.
      destruct (IH (acc ++ [r]) kv1) as [[Hlen [kv' Hrun]]|(dk & kvk & kv' & e & Hk & Hpre & Hf & Hrun)].
      * left. split; [by rewrite Hlen|]. exists kv'.
        rewrite Hrun. by rewrite <- app_assoc.
      * right. exists dk, kvk, kv', e. split; [exact Hk|].
        rewrite (bind_Return _ _ _ _ _ Hc), Hpre, Hrun, <- app_assoc. done.
    + right. exists d, kv, kv1, e. simpl. rewrite app_nil_r.
      rewrite (bind_Throw _ _ _ _ _ Hc). done.
Qed.

(** C3, as amended. When the creation of some item fails, [createMany] ends
    with the first failure alone: the error [create] threw for that item,
    unchanged, from the store in which the items before it are committed; the
    list of those items is not part of the outcome.  [updateMany] and
    [deleteMany] make one call of [update] and of [remove] on the whole
    resolved list and end as that call ends. *)
Theorem batch_failure_is_first_error tableName tableDefinition :
  (∀ createManyArgs kv kv' e,
     createManyImpl tableName tableDefinition createManyArgs kv = (kv', Throw e) →
     let select := CreateManyArgs.select createManyArgs in
     let items := CreateManyArgs.data createManyArgs in
     let applied := appliedItems tableName tableDefinition select items kv in
     ∃ data_k kvk,
       items !! length applied = Some data_k ∧
       createManyImpl tableName tableDefinition
         (CreateManyArgs.mk select (take (length applied) items)) kv
         = (kvk, Return applied) ∧
       createImpl tableName tableDefinition (CreateArgs.mk select data_k) kvk
         = (kv', Throw e))
  ∧
  (∀ updateArgs kv keys indexKeys kv1 foundItems,
     schemaToKeys (schema tableDefinition) (default ∅ (UpdateArgs.where_ updateArgs))
       = Return keys →
     keysToIndexes tableName keys = Return indexKeys →
     whereToKeys tableName indexKeys (default ∅ (UpdateArgs.where_ updateArgs)) kv
       = (kv1, Return foundItems) →
     foundItems ≠ [] →
     updateManyImpl tableName tableDefinition updateArgs kv =
       update (fmap (λ i, UpdateArgs.data updateArgs ∪ value i) foundItems)
              (fmap key foundItems) kv1)
  ∧
  (∀ queryArgs kv keys indexKeys kv1 foundItems,
     schemaToKeys (schema tableDefinition) (default ∅ (QueryArgs.where_ queryArgs))
       = Return keys →
     keysToIndexes tableName keys = Return indexKeys →
     whereToKeys tableName indexKeys (default ∅ (QueryArgs.where_ queryArgs)) kv
       = (kv1, Return foundItems) →
     deleteManyImpl tableName tableDefinition queryArgs kv
       = remove (fmap key foundItems) kv1).
Proof.
  split; [|split].
  - intros args kv kv' e Hrun select items applied. unfold createManyImpl in *.
    destruct (createManyLoop_run tableName tableDefinition select items [] kv)
      as [[_ [kv2 Hok]]|(dk & kvk & kv2 & e2 & Hk & Hpre & Hfail & Hthrow)].
    + subst select items. rewrite Hok in Hrun. discriminate.
    + subst select items. rewrite Hthrow in Hrun. injection Hrun as -> ->.
      exists dk, kvk. done.
  - intros args kv keys indexKeys kv1 foundItems Hk Hi Hw Hne.
    rewrite (updateManyImpl_resolved _ _ _ _ _ _ _ _ Hk Hi Hw).
    by destruct foundItems.
  - intros args kv keys indexKeys kv1 foundItems Hk Hi Hw.
    exact (deleteManyImpl_resolved _ _ _ _ _ _ _ _ Hk Hi Hw).
Qed.

(** C4. [findFirst] ends as [findMany] ends on the same arguments, with the
    first element of its result in place of the result; it is absent exactly
    when that result is empty. *)
Theorem findFirst_is_head_of_findMany tableName tableDefinition queryArgs kv kv' o :
  findManyImpl tableName tableDefinition queryArgs kv = (kv', o) →
  findFirstImpl tableName tableDefinition queryArgs kv = (kv', outcome_map head o) ∧
  ∀ found, o = Return found →
    (findFirstImpl tableName tableDefinition queryArgs kv = (kv', Return None)
     ↔ found = []).
Proof.
  unfold findManyImpl, findFirstImpl. intros Hm.
  rewrite (bind_ret_outcome _ head _ _ _ Hm).
  split; [reflexivity|]. intros found ->. simpl.
  destruct found as [|x found]; simpl; split; intros Hx; try done.
Qed.

(** C5. [updateMany] throws the zero-rows error when [where] resolves to no
    record, and otherwise ends as the one call of [update] on the merged
    value and the key of every resolved record ends, with all the records
    that call returns. *)
Theorem updateMany_zero_rows_error tableName tableDefinition updateArgs kv
    keys indexKeys kv1 foundItems :
  schemaToKeys (schema tableDefinition) (default ∅ (UpdateArgs.where_ updateArgs))
    = Return keys →
  keysToIndexes tableName keys = Return indexKeys →
  whereToKeys tableName indexKeys (default ∅ (UpdateArgs.where_ updateArgs)) kv
    = (kv1, Return foundItems) →
  (foundItems = [] →
     updateManyImpl tableName tableDefinition updateArgs kv
       = (kv1, Throw UpdateZeroRowsError)) ∧
  (foundItems ≠ [] →
     updateManyImpl tableName tableDefinition updateArgs kv
       = update (fmap (λ i, UpdateArgs.data updateArgs ∪ value i) foundItems)
                (fmap key foundItems) kv1 ∧
     length (fmap (λ i, UpdateArgs.data updateArgs ∪ value i) foundItems)
       = length foundItems).
Proof.
  intros Hk Hi Hw.
  rewrite (updateManyImpl_resolved _ _ _ _ _ _ _ _ Hk Hi Hw).
  split.
  - by intros ->.
  - intros Hne. split; [by destruct foundItems|]. by rewrite length_fmap.
Qed.

(** C6, as amended. [update] ends as [updateMany] ends on the same arguments,
    with the first record of its result in place of the result; when
    [updateMany] throws, and so when it would update no record, [update]
    throws the same error. *)
Theorem update_is_head_of_updateMany tableName tableDefinition updateArgs kv kv' o :
  updateManyImpl tableName tableDefinition updateArgs kv = (kv', o) →
  updateImpl tableName tableDefinition updateArgs kv = (kv', outcome_map head o) ∧
  ∀ e, o = Throw e →
       updateImpl tableName tableDefinition updateArgs kv = (kv', Throw e).
Proof.
  unfold updateImpl. intros Hm.
  rewrite (bind_ret_outcome _ head _ _ _ Hm).
  split; [reflexivity|]. by intros e ->.
Qed.

(** C8. The entity [update] and [updateMany] write for a resolved record is
    the record with [data] laid over it field by field: a field of [data]
    replaces the field of the record, any other field of the record is kept. *)
Theorem update_writes_shallow_merge tableName tableDefinition updateArgs kv
    keys indexKeys kv1 foundItems :
  schemaToKeys (schema tableDefinition) (default ∅ (UpdateArgs.where_ updateArgs))
    = Return keys →
  keysToIndexes tableName keys = Return indexKeys →
  whereToKeys tableName indexKeys (default ∅ (UpdateArgs.where_ updateArgs)) kv
    = (kv1, Return foundItems) →
  foundItems ≠ [] →
  ∃ written,
    updateManyImpl tableName tableDefinition updateArgs kv
      = update written (fmap key foundItems) kv1 ∧
    updateImpl tableName tableDefinition updateArgs kv
      = (let* updated := update written (fmap key foundItems) in ret (head updated)) kv1 ∧
    written = fmap (λ i, UpdatedItem.value (merge updateArgs i)) foundItems ∧
    Forall2 (λ existingItem w, ∀ f,
               (∀ v, UpdateArgs.data updateArgs !! f = Some v → w !! f = Some v) ∧
               (UpdateArgs.data updateArgs !! f = None → w !! f = value existingItem !! f))
            foundItems written.
Proof.
  intros Hk Hi Hw Hne.
  pose proof (updateManyImpl_resolved _ _ _ _ _ _ _ _ Hk Hi Hw) as Hu.
  destruct foundItems as [|i0 rest]; [done|].
  eexists. split; [exact Hu|]. split; [|split; [reflexivity|]].
  - unfold updateImpl, bind at 1. rewrite Hu. reflexivity.
  - apply Forall2_fmap_r, Forall_Forall2_diag, Forall_forall.
    intros i _ f. simpl. split.
    + intros v Hv. by apply lookup_union_Some_l.
    + intros Hnone. by apply lookup_union_r.
Qed.

(** The arguments of the [update] call do not depend on the versionstamps
    that were read: of [updatedItems] only the values are passed on. *)
Lemma merge_value_ignores_versionstamp updateArgs k e v1 v2 :
  UpdatedItem.value (merge updateArgs (mkKvEntry k e v1))
  = UpdatedItem.value (merge updateArgs (mkKvEntry k e v2)).
Proof. reflexivity. Qed.

(** C9, as amended. The version token that [update] and [updateMany] pair
    with the merged entity of a resolved record is the [versionstamp] of
    [data] when [data] has one that is neither [null] nor [undefined], and
    otherwise the token read when the record was resolved. *)
Theorem merge_versionstamp updateArgs existingItem :
  (∀ v, UpdateArgs.data updateArgs !! "versionstamp" = Some v →
        v ≠ VNull → v ≠ VUndefined →
        UpdatedItem.versionstamp (merge updateArgs existingItem) = v) ∧
  (UpdateArgs.data updateArgs !! "versionstamp" = None ∨
   UpdateArgs.data updateArgs !! "versionstamp" = Some VNull ∨
   UpdateArgs.data updateArgs !! "versionstamp" = Some VUndefined →
   UpdatedItem.versionstamp (merge updateArgs existingItem)
     = VStamp (versionstamp existingItem)).
Proof.
  unfold merge. simpl. split.
  - intros v -> Hn Hu. by destruct v.
  - intros [->|[->| ->]]; reflexivity.
Qed.

(** C10. [delete] and [deleteMany] are the same function: from every store
    they end in the same store with the same outcome, and once [where] is
    resolved both are the one call of [remove] on the keys of all the records
    found. *)
Theorem delete_eq_deleteMany tableName tableDefinition queryArgs kv :
  deleteImpl tableName tableDefinition queryArgs kv
  = deleteManyImpl tableName tableDefinition queryArgs kv
  ∧
  ∀ keys indexKeys kv1 foundItems,
    schemaToKeys (schema tableDefinition) (default ∅ (QueryArgs.where_ queryArgs))
      = Return keys →
    keysToIndexes tableName keys = Return indexKeys →
    whereToKeys tableName indexKeys (default ∅ (QueryArgs.where_ queryArgs)) kv
      = (kv1, Return foundItems) →
    deleteImpl tableName tableDefinition queryArgs kv
      = remove (fmap key foundItems) kv1 ∧
    deleteManyImpl tableName tableDefinition queryArgs kv
      = remove (fmap key foundItems) kv1.
Proof.
  assert (deleteImpl tableName tableDefinition queryArgs kv
          = deleteManyImpl tableName tableDefinition queryArgs kv) as Heq
    by reflexivity.
  split; [exact Heq|].
  intros keys indexKeys kv1 foundItems Hk Hi Hw.
  rewrite Heq. split; exact (deleteManyImpl_resolved _ _ _ _ _ _ _ _ Hk Hi Hw).
Qed.

End VerbFacts.

(** * Further properties of the verbs, for every implementation of the imports *)

Section VerbExtras.
Context `{Imports}.
Implicit Types (tableName : string) (tableDefinition : TableDefinition).
Implicit Types (kv : Kv) (foundItems : list KvEntry).

Lemma bind_assoc {A B C} (m : M A) (f : A → M B) (g : B → M C) kv :
  bind (bind m f) g kv = bind m (λ a, bind (f a) g) kv.
Proof. unfold bind. by destruct (m kv) as [kv1 [a|e]]. Qed.

(** The array [createdItems] the loop starts from only prefixes the result. *)
Lemma createManyLoop_acc tableName tableDefinition select rest : ∀ createdItems kv,
  createManyLoop tableName tableDefinition select rest createdItems kv =
  ((createManyLoop tableName tableDefinition select rest [] kv).1,
   outcome_map (app createdItems)
     (createManyLoop tableName tableDefinition select rest [] kv).2).
Proof.
  induction rest as [|d rest IH]; intros acc kv; simpl.
  - unfold ret. simpl. by rewrite app_nil_r.
  - unfold bind.
    destruct (createImpl tableName tableDefinition (CreateArgs.mk select d) kv)
      as [kv1 [c|e]]; simpl; [|done].
    rewrite (IH (acc ++ [c])), (IH [c]).
    destruct (createManyLoop tableName tableDefinition select rest [] kv1)
      as [kv2 [r|e]]; simpl; [|done].
    by rewrite <- app_assoc.
Qed.

(** The loop over a concatenation is the loop over the first part followed
    by the loop over the second. *)
Lemma createManyLoop_app tableName tableDefinition select xs ys : ∀ createdItems kv,
  createManyLoop tableName tableDefinition select (xs ++ ys) createdItems kv =
  (let* created := createManyLoop tableName tableDefinition select xs createdItems in
   createManyLoop tableName tableDefinition select ys created) kv.
Proof.
  induction xs as [|d xs IH]; intros acc kv; simpl; [reflexivity|].
  rewrite bind_assoc.
  destruct (createImpl tableName tableDefinition (CreateArgs.mk select d) kv)
    as [kv1 [c|e]] eqn:Hc.
  - rewrite (bind_Return _ _ _ _ _ Hc). rewrite (bind_Return _ _ _ _ _ Hc). apply IH.
  - rewrite (bind_Throw _ _ _ _ _ Hc). by rewrite (bind_Throw _ _ _ _ _ Hc).
Qed.

Lemma createManyLoop_select tableName tableDefinition select select' rest :
  ∀ createdItems kv,
  createManyLoop tableName tableDefinition select rest createdItems kv =
  createManyLoop tableName tableDefinition select' rest createdItems kv.
Proof.
  induction rest as [|d rest IH]; intros acc kv; simpl; [reflexivity|].
  unfold bind.
  change (createImpl tableName tableDefinition (CreateArgs.mk select' d) kv)
    with (createImpl tableName tableDefinition (CreateArgs.mk select d) kv).
  destruct (createImpl tableName tableDefinition (CreateArgs.mk select d) kv)
    as [kv1 [c|e]]; [apply IH|done].
Qed.

(** X1. When [createMany] succeeds it returns one item per input, in the
    order of the input: the items the successive [create] calls returned. *)
Theorem createMany_success_all_items tableName tableDefinition createManyArgs kv kv' created :
  createManyImpl tableName tableDefinition createManyArgs kv = (kv', Return created) →
  length created = length (CreateManyArgs.data createManyArgs) ∧
  created = appliedItems tableName tableDefinition
              (CreateManyArgs.select createManyArgs)
              (CreateManyArgs.data createManyArgs) kv.
Proof.
  unfold createManyImpl. intros Hrun.
  destruct (createManyLoop_run tableName tableDefinition
              (CreateManyArgs.select createManyArgs)
              (CreateManyArgs.data createManyArgs) [] kv)
    as [[Hlen [kv2 Hok]]|(dk & kvk & kv2 & e2 & _ & _ & _ & Hthrow)].
  - rewrite Hok in Hrun. injection Hrun as _ <-. simpl. by rewrite Hlen.
  - rewrite Hthrow in Hrun. discriminate.
Qed.

(** X2. [createMany] of a concatenation is [createMany] of the first part
    followed by [createMany] of the second, with the two results appended;
    [createMany] of one item is [create] of that item, and [createMany] of no
    item returns the empty list and leaves the store. *)
Theorem createMany_app tableName tableDefinition select xs ys d kv :
  createManyImpl tableName tableDefinition (CreateManyArgs.mk select []) kv
    = (kv, Return [])
  ∧
  createManyImpl tableName tableDefinition (CreateManyArgs.mk select (xs ++ ys)) kv =
  (let* a := createManyImpl tableName tableDefinition (CreateManyArgs.mk select xs) in
   let* b := createManyImpl tableName tableDefinition (CreateManyArgs.mk select ys) in
   ret (a ++ b)) kv
  ∧
  createManyImpl tableName tableDefinition (CreateManyArgs.mk select [d]) kv =
  (let* created := createImpl tableName tableDefinition (CreateArgs.mk select d) in
   ret [created]) kv.
Proof.
  split; [reflexivity|]. split; [|reflexivity].
  unfold createManyImpl. simpl. rewrite createManyLoop_app. unfold bind.
  destruct (createManyLoop tableName tableDefinition select xs [] kv)
    as [kv1 [a|e]]; [|done].
  rewrite (createManyLoop_acc _ _ _ ys a).
  by destruct (createManyLoop tableName tableDefinition select ys [] kv1)
    as [kv2 [b|e]].
Qed.

(** X3. [createMany] stops at the first failure: the items after the failing
    one are not attempted, so whatever follows a failing list changes neither
    the error nor the store. *)
Theorem createMany_stops_at_first_failure tableName tableDefinition select xs kv kv' e :
  createManyImpl tableName tableDefinition (CreateManyArgs.mk select xs) kv
    = (kv', Throw e) →
  ∀ ys, createManyImpl tableName tableDefinition (CreateManyArgs.mk select (xs ++ ys)) kv
          = (kv', Throw e).
Proof.
  unfold createManyImpl. simpl. intros Hrun ys.
  rewrite createManyLoop_app. by rewrite (bind_Throw _ _ _ _ _ Hrun).
Qed.

(** X4. [create], [createMany], [delete], [deleteMany], [update] and
    [updateMany] never read [select]: two calls that differ only in [select]
    end in the same store with the same outcome. *)
Theorem select_is_ignored_by_writes tableName tableDefinition select select' kv :
  (∀ data, createImpl tableName tableDefinition (CreateArgs.mk select data) kv
           = createImpl tableName tableDefinition (CreateArgs.mk select' data) kv) ∧
  (∀ items, createManyImpl tableName tableDefinition (CreateManyArgs.mk select items) kv
            = createManyImpl tableName tableDefinition (CreateManyArgs.mk select' items) kv) ∧
  (∀ w, deleteImpl tableName tableDefinition (QueryArgs.mk w select) kv
        = deleteImpl tableName tableDefinition (QueryArgs.mk w select') kv) ∧
  (∀ w, deleteManyImpl tableName tableDefinition (QueryArgs.mk w select) kv
        = deleteManyImpl tableName tableDefinition (QueryArgs.mk w select') kv) ∧
  (∀ w data, updateManyImpl tableName tableDefinition (UpdateArgs.mk w data select) kv
             = updateManyImpl tableName tableDefinition (UpdateArgs.mk w data select') kv) ∧
  (∀ w data, updateImpl tableName tableDefinition (UpdateArgs.mk w data select) kv
             = updateImpl tableName tableDefinition (UpdateArgs.mk w data select') kv).
Proof.
  repeat split; try reflexivity.
  intros items. unfold createManyImpl. simpl. apply createManyLoop_select.
Qed.

(** X5. When deriving the keys fails, in [schemaToKeys] or in
    [keysToIndexes], the verb ends with that error and the store it started
    from: [create], [whereToKeys], [update] and [remove] are not reached. *)
Theorem key_derivation_error_leaves_store tableName tableDefinition (values : Entity) e :
  schemaToKeys (schema tableDefinition) values = Throw e ∨
  (∃ keys, schemaToKeys (schema tableDefinition) values = Return keys ∧
           keysToIndexes tableName keys = Throw e) →
  (∀ select kv,
     createImpl tableName tableDefinition (CreateArgs.mk select values) kv
       = (kv, Throw e)) ∧
  (∀ select rest kv,
     createManyImpl tableName tableDefinition
       (CreateManyArgs.mk select (values :: rest)) kv = (kv, Throw e)) ∧
  (∀ select kv,
     deleteImpl tableName tableDefinition (QueryArgs.mk (Some values) select) kv
       = (kv, Throw e) ∧
     deleteManyImpl tableName tableDefinition (QueryArgs.mk (Some values) select) kv
       = (kv, Throw e)) ∧
  (∀ data select kv,
     updateManyImpl tableName tableDefinition (UpdateArgs.mk (Some values) data select) kv
       = (kv, Throw e) ∧
     updateImpl tableName tableDefinition (UpdateArgs.mk (Some values) data select) kv
       = (kv, Throw e)).
Proof.
  intros Hfail.
  assert (∀ select kv,
            createImpl tableName tableDefinition (CreateArgs.mk select values) kv
            = (kv, Throw e)) as Hcreate.
  { intros select kv. unfold createImpl, bind, lift. simpl.
    destruct Hfail as [->|(keys & -> & ->)]; reflexivity. }
  assert (∀ data select kv,
            updateManyImpl tableName tableDefinition
              (UpdateArgs.mk (Some values) data select) kv = (kv, Throw e)) as Hupd.
  { intros data select kv. unfold updateManyImpl, bind, lift. simpl.
    destruct Hfail as [->|(keys & -> & ->)]; reflexivity. }
  split; [exact Hcreate|]. split; [|split].
  - intros select rest kv. unfold createManyImpl. simpl.
    by rewrite (bind_Throw _ _ _ _ _ (Hcreate select kv)).
  - intros select kv. unfold deleteImpl, deleteManyImpl, bind, lift. simpl.
    destruct Hfail as [->|(keys & -> & ->)]; split; reflexivity.
  - intros data select kv. split; [apply Hupd|].
    unfold updateImpl. by rewrite (bind_Throw _ _ _ _ _ (Hupd data select kv)).
Qed.

(** X6. When [whereToKeys] fails, [delete], [deleteMany], [update] and
    [updateMany] end with its error and the store as it left it; [remove] and
    [update] are not called. *)
Theorem resolution_error_propagates tableName tableDefinition (where_ : Entity)
    keys indexKeys kv kv1 e :
  schemaToKeys (schema tableDefinition) where_ = Return keys →
  keysToIndexes tableName keys = Return indexKeys →
  whereToKeys tableName indexKeys where_ kv = (kv1, Throw e) →
  (∀ select,
     deleteImpl tableName tableDefinition (QueryArgs.mk (Some where_) select) kv
       = (kv1, Throw e) ∧
     deleteManyImpl tableName tableDefinition (QueryArgs.mk (Some where_) select) kv
       = (kv1, Throw e)) ∧
  (∀ data select,
     updateManyImpl tableName tableDefinition (UpdateArgs.mk (Some where_) data select) kv
       = (kv1, Throw e) ∧
     updateImpl tableName tableDefinition (UpdateArgs.mk (Some where_) data select) kv
       = (kv1, Throw e)).
Proof.
  intros Hk Hi Hw.
  assert (∀ data select,
            updateManyImpl tableName tableDefinition
              (UpdateArgs.mk (Some where_) data select) kv = (kv1, Throw e)) as Hupd.
  { intros data select. unfold updateManyImpl. simpl.
    rewrite (bind_Return _ _ kv kv keys) by (unfold lift; by rewrite Hk).
    rewrite (bind_Return _ _ kv kv indexKeys) by (unfold lift; by rewrite Hi).
    by rewrite (bind_Throw _ _ _ _ _ Hw). }
  split.
  - intros select. unfold deleteImpl, deleteManyImpl. simpl.
    rewrite !(bind_Return _ _ kv kv keys) by (unfold lift; by rewrite Hk).
    rewrite !(bind_Return _ _ kv kv indexKeys) by (unfold lift; by rewrite Hi).
    by rewrite !(bind_Throw _ _ _ _ _ Hw).
  - intros data select. split; [apply Hupd|].
    unfold updateImpl. by rewrite (bind_Throw _ _ _ _ _ (Hupd data select)).
Qed.

(** X7. Merging [data1] and then [data2] into a record gives the value that
    merging their combination, with [data2] laid over [data1], gives at once;
    merging the same [data] a second time changes nothing. *)
Theorem merge_twice updateArgs1 updateArgs2 existingItem k v :
  UpdatedItem.value
    (merge updateArgs2
       (mkKvEntry k (UpdatedItem.value (merge updateArgs1 existingItem)) v))
  = UpdatedItem.value
      (merge (UpdateArgs.mk (UpdateArgs.where_ updateArgs2)
                (UpdateArgs.data updateArgs2 ∪ UpdateArgs.data updateArgs1)
                (UpdateArgs.select updateArgs2))
             existingItem)
  ∧
  UpdatedItem.value
    (merge updateArgs1
       (mkKvEntry k (UpdatedItem.value (merge updateArgs1 existingItem)) v))
  = UpdatedItem.value (merge updateArgs1 existingItem).
Proof.
  simpl. split.
  - by rewrite (assoc_L (∪)).
  - by rewrite (assoc_L (∪)), (idemp_L (∪)).
Qed.

(** X8. The merge removes no field and moves no record: the fields of the
    written entity are those of [data] and those of the record, the key is
    the key the record was found under, and empty [data] writes the record's
    own value back. *)
Theorem merge_keeps_fields_and_key updateArgs existingItem :
  dom (UpdatedItem.value (merge updateArgs existingItem))
    = dom (UpdateArgs.data updateArgs) ∪ dom (value existingItem) ∧
  UpdatedItem.key (merge updateArgs existingItem) = key existingItem ∧
  UpdatedItem.value
    (merge (UpdateArgs.mk (UpdateArgs.where_ updateArgs) ∅
              (UpdateArgs.select updateArgs)) existingItem)
    = value existingItem.
Proof.
  simpl. split; [apply dom_union_L|]. split; [reflexivity|].
  apply (left_id_L ∅ (∪)).
Qed.

(** X9. What [updateMany] passes to [update] does not depend on the
    versionstamps read with the records: resolved records that agree on keys
    and values give the same call. *)
Theorem update_call_ignores_versionstamps updateArgs foundItems foundItems' :
  Forall2 (λ a b, key a = key b ∧ value a = value b) foundItems foundItems' →
  fmap UpdatedItem.value (fmap (merge updateArgs) foundItems)
    = fmap UpdatedItem.value (fmap (merge updateArgs) foundItems') ∧
  fmap key foundItems = fmap key foundItems' ∧
  ∀ kv, update (fmap UpdatedItem.value (fmap (merge updateArgs) foundItems))
               (fmap key foundItems) kv
        = update (fmap UpdatedItem.value (fmap (merge updateArgs) foundItems'))
                 (fmap key foundItems') kv.
Proof.
  intros Hagree.
  assert (fmap UpdatedItem.value (fmap (merge updateArgs) foundItems)
          = fmap UpdatedItem.value (fmap (merge updateArgs) foundItems') ∧
          fmap key foundItems = fmap key foundItems') as [Hv Hk].
  { induction Hagree as [|a b l l' [Hkey Hval] _ [IHv IHk]]; [done|].
    rewrite !fmap_cons. split.
    - f_equal; [simpl; by rewrite Hval|exact IHv].
    - f_equal; [exact Hkey|exact IHk]. }
  split; [exact Hv|]. split; [exact Hk|]. intros kv. by rewrite Hv, Hk.
Qed.

Section Database.
Context {KvHandle : Type}.
Implicit Types (schema : gmap string TableDefinition).

(** X10. The [getKv] property of the object [createPentagon] returns is the
    accessor of the handle it was given, whatever the schema, even one with a
    table named [getKv], whose methods it replaces; so [getKvInstance] gives
    that handle back. *)
Theorem getKvInstance_createPentagon (kv : KvHandle) schema :
  getKvInstance (createPentagon kv schema) = Some kv ∧
  ∃ getKv, createPentagon kv schema !! "getKv" = Some (GetKv getKv) ∧ getKv tt = kv.
Proof.
  unfold getKvInstance, createPentagon. rewrite lookup_insert_eq.
  split; [reflexivity|]. by eexists.
Qed.

(** X11. Under every name but [getKv], the object [createPentagon] returns
    has the methods of the table of that name, bound to that name and its
    definition, when the schema has such a table, and nothing otherwise. *)
Theorem createPentagon_table_methods (kv : KvHandle) schema tableName :
  tableName ≠ "getKv" →
  createPentagon kv schema !! tableName
  = (λ tableDefinition, Methods (tableMethods tableName tableDefinition))
      <$> schema !! tableName.
Proof.
  intros Hne. unfold createPentagon. rewrite lookup_insert_ne by done.
  set (f := λ '(t, td), (t, Methods (KvHandle := KvHandle) (tableMethods t td))).
  assert ((fmap fst (fmap f (map_to_list schema))) = fmap fst (map_to_list schema)) as Hfst.
  { rewrite <- list_fmap_compose. apply list_fmap_ext. by intros _ [t td] _. }
  destruct (schema !! tableName) as [td|] eqn:Hlook; simpl.
  - apply elem_of_list_to_map_1.
    + rewrite Hfst. apply NoDup_fst_map_to_list.
    + apply list_elem_of_fmap. exists (tableName, td).
      split; [reflexivity|]. by apply elem_of_map_to_list.
  - apply not_elem_of_list_to_map_1. rewrite Hfst.
    intros Hin. apply list_elem_of_fmap in Hin as ([t td] & -> & Hin).
    apply elem_of_map_to_list in Hin. simpl in Hlook. congruence.
Qed.

End Database.

End VerbExtras.

(** * The missing guard of [delete] and [deleteMany] *)

Section DeleteGuard.
Context `{Imports}.

(** C7. [deleteMany] and [delete] have no guard on the resolved set, where
    [updateMany] has one: when [where] resolves to no record, they call
    [remove] on the empty list of keys and end as that call ends, whatever
    [remove] is, with no error of their own, while [updateMany] on the same
    predicate throws the zero-rows error. *)
Theorem deleteMany_has_no_zero_rows_guard (tableName : string)
    (tableDefinition : TableDefinition) (where_ : Entity) keys indexKeys (kv kv1 : Kv) :
  schemaToKeys (schema tableDefinition) where_ = Return keys →
  keysToIndexes tableName keys = Return indexKeys →
  whereToKeys tableName indexKeys where_ kv = (kv1, Return []) →
  (∀ select,
     deleteManyImpl tableName tableDefinition (QueryArgs.mk (Some where_) select) kv
       = remove [] kv1 ∧
     deleteImpl tableName tableDefinition (QueryArgs.mk (Some where_) select) kv
       = remove [] kv1) ∧
  (∀ data select,
     updateManyImpl tableName tableDefinition (UpdateArgs.mk (Some where_) data select) kv
       = (kv1, Throw UpdateZeroRowsError)).
Proof.
  intros Hk Hi Hw. split.
  - intros select.
    assert (deleteManyImpl tableName tableDefinition
              (QueryArgs.mk (Some where_) select) kv = remove [] kv1) as Hd.
    { exact (deleteManyImpl_resolved tableName tableDefinition
               (QueryArgs.mk (Some where_) select) kv keys indexKeys kv1 [] Hk Hi Hw). }
    split; exact Hd.
  - intros data select.
    exact (updateManyImpl_resolved tableName tableDefinition
             (UpdateArgs.mk (Some where_) data select) kv keys indexKeys kv1 []
             Hk Hi Hw).
Qed.

End DeleteGuard.

(** * Properties over the modelled store *)

Module SpecFacts.
Import SpecModel.

Lemma createImpl_create tableName tableDefinition createArgs kv :
  createImpl tableName tableDefinition createArgs kv =
  create (CreateArgs.data createArgs)
         (encodeKeys tableName tableDefinition (CreateArgs.data createArgs)) kv.
Proof. reflexivity. Qed.

Lemma key_field_encoded tableName tableDefinition entity f d v :
  (f, d) ∈ schema tableDefinition →
  isPrimaryKey d || isIndex d = true →
  entity !! f = Some v →
  (namespace tableName f d, v) ∈ encodeKeys tableName tableDefinition entity.
Proof.
  intros Hin Hrole Hv. unfold encodeKeys, accessKeys, namespace.
  destruct (isPrimaryKey d) eqn:Hp.
  - apply (list_elem_of_fmap_2 (physicalKey tableName) _ (primaryKey v)).
    apply elem_of_app. left. apply list_elem_of_omap.
    exists (f, d). split; [exact Hin|]. simpl. rewrite Hp, Hv. reflexivity.
  - apply (list_elem_of_fmap_2 (physicalKey tableName) _ (secondaryKey f v)).
    apply elem_of_app. right. apply list_elem_of_omap.
    exists (f, d). split; [exact Hin|]. simpl in *. rewrite Hp, Hrole, Hv. reflexivity.
Qed.

Lemma check_absent_false kv k :
  check_holds kv (k, None) = false ↔ is_Some (get k kv).
Proof.
  unfold check_holds, get. simpl. rewrite bool_decide_eq_false.
  destruct (entries kv !! k) as [x|]; simpl; split; intros Hx.
  - by eexists.
  - discriminate.
  - by destruct Hx.
  - by destruct Hx.
Qed.

Lemma foldl_set_notin (data : Entity) (v : Versionstamp) (ks : list KvKey) : ∀ m k,
  k ∉ ks →
  foldl (apply_mutation v) m (fmap (λ k, (k, Some data)) ks) !! k = m !! k.
Proof.
  induction ks as [|a ks IH]; intros m k Hk; simpl; [reflexivity|].
  apply not_elem_of_cons in Hk as [Hne Hk].
  rewrite IH by exact Hk. unfold apply_mutation. simpl.
  by rewrite lookup_insert_ne.
Qed.

Lemma foldl_set_in (data : Entity) (v : Versionstamp) (ks : list KvKey) : ∀ m k,
  k ∈ ks →
  foldl (apply_mutation v) m (fmap (λ k, (k, Some data)) ks) !! k = Some (data, v).
Proof.
  induction ks as [|a ks IH]; intros m k Hk; simpl.
  - by apply elem_of_nil in Hk.
  - destruct (decide (k ∈ ks)) as [Hin|Hnin]; [by apply IH|].
    apply elem_of_cons in Hk as [->|Hk]; [|done].
    rewrite foldl_set_notin by exact Hnin.
    unfold apply_mutation. simpl. apply lookup_insert_eq.
Qed.

(** A failed [create] leaves the store as it was and names a key that is
    taken. *)
Lemma create_Throw data indexKeys kv kv' e :
  create data indexKeys kv = (kv', Throw e) →
  kv' = kv ∧ ∃ k, e = DuplicateKeyError k ∧ k ∈ indexKeys ∧ is_Some (get k kv).
Proof.
  unfold create, atomicApply.
  destruct (list_find _ _) as [[i c]|] eqn:Hfind; [|discriminate].
  intros [= <- <-]. split; [reflexivity|].
  apply list_find_Some in Hfind as (Hi & Hc & _).
  apply list_elem_of_lookup_2, list_elem_of_fmap in Hi as (k & -> & Hk).
  exists k. split; [reflexivity|]. split; [exact Hk|].
  by apply check_absent_false.
Qed.

(** [create] fails as soon as one of the keys is taken. *)
Lemma create_conflict data indexKeys kv k :
  k ∈ indexKeys → is_Some (get k kv) →
  ∃ k', k' ∈ indexKeys ∧ is_Some (get k' kv) ∧
        create data indexKeys kv = (kv, Throw (DuplicateKeyError k')).
Proof.
  intros Hk Hsome.
  destruct (create data indexKeys kv) as [kv' [r|e]] eqn:Hc.
  - exfalso. unfold create, atomicApply in Hc.
    destruct (list_find _ _) as [[i c]|] eqn:Hfind; [discriminate|].
    apply list_find_None in Hfind.
    rewrite Forall_forall in Hfind.
    apply (Hfind (k, None)).
    + apply list_elem_of_fmap. by exists k.
    + by apply check_absent_false.
  - apply create_Throw in Hc as (-> & k' & -> & Hk' & Hs'). by exists k'.
Qed.

(** A successful [create] found every key free, set every key to the entity
    under the new versionstamp, and touched no other key. *)
Lemma create_Return data indexKeys kv kv' created :
  create data indexKeys kv = (kv', Return created) →
  created = (data, N.succ (clock kv)) ∧
  (∀ k, k ∈ indexKeys → get k kv = None) ∧
  (∀ k, k ∈ indexKeys → get k kv' = Some created) ∧
  (∀ k, k ∉ indexKeys → get k kv' = get k kv).
Proof.
  unfold create, atomicApply.
  destruct (list_find _ _) as [[i c]|] eqn:Hfind; [discriminate|].
  intros [= <- <-]. split; [reflexivity|].
  apply list_find_None in Hfind. rewrite Forall_forall in Hfind.
  split; [|split].
  - intros k Hk. destruct (get k kv) as [x|] eqn:Hg; [|reflexivity].
    exfalso. apply (Hfind (k, None)).
    + apply list_elem_of_fmap. by exists k.
    + apply check_absent_false. rewrite Hg. by eexists.
  - intros k Hk. unfold get. simpl. by apply foldl_set_in.
  - intros k Hk. unfold get. simpl. by apply foldl_set_notin.
Qed.

(** [create] succeeds when every key is free. *)
Lemma create_free data indexKeys kv :
  (∀ k, k ∈ indexKeys → get k kv = None) →
  ∃ kv', create data indexKeys kv = (kv', Return (data, N.succ (clock kv))).
Proof.
  intros Hfree. destruct (create data indexKeys kv) as [kv' [r|e]] eqn:Hc.
  - exists kv'. by destruct (create_Return _ _ _ _ _ Hc) as (-> & _).
  - apply create_Throw in Hc as (_ & k & _ & Hk & [x Hx]).
    rewrite (Hfree k Hk) in Hx. discriminate.
Qed.

(** Entries present before a successful [create] are still there after it. *)
Lemma create_preserves data indexKeys kv kv' created k x :
  create data indexKeys kv = (kv', Return created) →
  get k kv = Some x → get k kv' = Some x.
Proof.
  intros Hc Hx. apply create_Return in Hc as (_ & Hfree & _ & Hother).
  destruct (decide (k ∈ indexKeys)) as [Hin|Hnin].
  - rewrite (Hfree k Hin) in Hx. discriminate.
  - by rewrite Hother.
Qed.

(** A run of the loop of [createManyImpl] that reaches the end keeps what the
    store held and leaves every item under each of its keys. *)
Lemma createManyLoop_committed tableName tableDefinition select items :
  ∀ createdItems kv kv' result,
  createManyLoop tableName tableDefinition select items createdItems kv
    = (kv', Return result) →
  ∃ created,
    result = createdItems ++ created ∧
    length created = length items ∧
    (∀ k x, get k kv = Some x → get k kv' = Some x) ∧
    ∀ j data_j, items !! j = Some data_j →
      ∃ v, created !! j = Some (data_j, v) ∧
           ∀ k, k ∈ encodeKeys tableName tableDefinition data_j →
                get k kv' = Some (data_j, v).
Proof.
  induction items as [|d items IH]; intros acc kv kv' result Hrun; simpl in Hrun.
  - injection Hrun as <- <-. exists []. rewrite app_nil_r.
    repeat split; [done|]. intros j dj Hj. by rewrite lookup_nil in Hj.
  - destruct (createImpl tableName tableDefinition (CreateArgs.mk select d) kv)
      as [kv1 [r|e]] eqn:Hc.
    2:{ rewrite (bind_Throw _ _ _ _ _ Hc) in Hrun. discriminate. }
    rewrite (bind_Return _ _ _ _ _ Hc) in Hrun.
    rewrite createImpl_create in Hc. simpl in Hc.
    destruct (IH _ _ _ _ Hrun) as (created & -> & Hlen & Hkeep & Hitems).
    exists (r :: created). rewrite <- app_assoc. split; [done|].
    split; [simpl; by rewrite Hlen|]. split.
    + intros k x Hx. apply Hkeep. by eapply create_preserves.
    + intros [|j] dj Hj; simpl in Hj.
      * injection Hj as <-.
        destruct (create_Return _ _ _ _ _ Hc) as (-> & _ & Hset & _).
        eexists. split; [reflexivity|]. intros k Hk. apply Hkeep. by apply Hset.
      * by apply Hitems.
Qed.

(** With the strict Key Encoder, [create] of an entity that conforms is one
    [writeCreate] on the keys of the entity; of any other entity it is a
    [SchemaMismatchError] that leaves the store. *)
Lemma strict_createImpl tableName tableDefinition createArgs kv :
  createImpl (H := StrictModel.strict_keys_imports) tableName tableDefinition createArgs kv
  = if conforms (schema tableDefinition) (CreateArgs.data createArgs)
    then create (CreateArgs.data createArgs)
           (encodeKeys tableName tableDefinition (CreateArgs.data createArgs)) kv
    else (kv, Throw SchemaMismatchError).
Proof.
  unfold createImpl, bind, lift, conforms. simpl. unfold StrictModel.schemaToKeys.
  by destruct (forallb _ _).
Qed.

(** C1. With the Key Encoder of the design document, which refuses an entity
    that lacks a key field, [create] of a conforming entity fails with
    [DuplicateKeyError] when the primary key of the entity, or any
    secondary-index key it would occupy, is already in the store, and
    succeeds when all of them are free; so of two conforming entities with
    the same value of the primary-key field or of an indexed field, once the
    first is created the second is refused. *)
Theorem create_duplicate_key tableName tableDefinition createArgs kv :
  conforms (schema tableDefinition) (CreateArgs.data createArgs) = true →
  ((∀ k, k ∈ encodeKeys tableName tableDefinition (CreateArgs.data createArgs) →
         get k kv = None) →
   ∃ kv1, createImpl (H := StrictModel.strict_keys_imports)
            tableName tableDefinition createArgs kv
            = (kv1, Return (CreateArgs.data createArgs, N.succ (clock kv))))
  ∧
  (∀ k, k ∈ encodeKeys tableName tableDefinition (CreateArgs.data createArgs) →
        is_Some (get k kv) →
        ∃ k', k' ∈ encodeKeys tableName tableDefinition (CreateArgs.data createArgs) ∧
              is_Some (get k' kv) ∧
              createImpl (H := StrictModel.strict_keys_imports)
                tableName tableDefinition createArgs kv
                = (kv, Throw (DuplicateKeyError k')))
  ∧
  (∀ kv1 created other f d v,
     conforms (schema tableDefinition) (CreateArgs.data other) = true →
     createImpl (H := StrictModel.strict_keys_imports)
       tableName tableDefinition createArgs kv = (kv1, Return created) →
     (f, d) ∈ schema tableDefinition →
     isPrimaryKey d || isIndex d = true →
     CreateArgs.data createArgs !! f = Some v →
     CreateArgs.data other !! f = Some v →
     ∃ k', createImpl (H := StrictModel.strict_keys_imports)
             tableName tableDefinition other kv1
             = (kv1, Throw (DuplicateKeyError k'))).
Proof.
  intros Hconf. split; [|split].
  - intros Hfree. rewrite strict_createImpl, Hconf. by apply create_free.
  - intros k Hk Hsome. rewrite strict_createImpl, Hconf. by eapply create_conflict.
  - intros kv1 created other f d v Hconf' Hc Hin Hrole Hv Hv'.
    rewrite strict_createImpl, Hconf in Hc.
    apply create_Return in Hc as (_ & _ & Hset & _).
    pose proof (key_field_encoded tableName tableDefinition _ f d v Hin Hrole Hv) as Hk.
    pose proof (key_field_encoded tableName tableDefinition _ f d v Hin Hrole Hv') as Hk'.
    destruct (create_conflict (CreateArgs.data other) _ kv1 _ Hk') as (k' & _ & _ & Hthrow).
    + rewrite (Hset _ Hk). by eexists.
    + exists k'. by rewrite strict_createImpl, Hconf'.
Qed.

(** C2. [createMany] creates the items one after the other, each by its own
    [create]: when the creation of item [k] fails, the call ends with that
    error in the very store that the items before [k] produced, where each of
    them sits under each of its keys. *)
Theorem createMany_prefix_committed tableName tableDefinition createManyArgs kv kv' e :
  createManyImpl tableName tableDefinition createManyArgs kv = (kv', Throw e) →
  ∃ k data_k created,
    CreateManyArgs.data createManyArgs !! k = Some data_k ∧
    length created = k ∧
    createManyImpl tableName tableDefinition
      (CreateManyArgs.mk (CreateManyArgs.select createManyArgs)
                         (take k (CreateManyArgs.data createManyArgs))) kv
      = (kv', Return created) ∧
    createImpl tableName tableDefinition
      (CreateArgs.mk (CreateManyArgs.select createManyArgs) data_k) kv'
      = (kv', Throw e) ∧
    ∀ j data_j, take k (CreateManyArgs.data createManyArgs) !! j = Some data_j →
      ∃ v, created !! j = Some (data_j, v) ∧
           ∀ key, key ∈ encodeKeys tableName tableDefinition data_j →
                  get key kv' = Some (data_j, v).
Proof.
  intros Hrun. unfold createManyImpl in *.
  destruct (createManyLoop_run tableName tableDefinition
              (CreateManyArgs.select createManyArgs)
              (CreateManyArgs.data createManyArgs) [] kv)
    as [[_ [kv2 Hok]]|(dk & kvk & kv2 & e2 & Hk & Hpre & Hfail & Hthrow)].
  { rewrite Hok in Hrun. discriminate. }
  rewrite Hthrow in Hrun. injection Hrun as -> ->.
  pose proof Hfail as Hfail'. rewrite createImpl_create in Hfail'.
  apply create_Throw in Hfail' as [-> _].
  destruct (createManyLoop_committed _ _ _ _ _ _ _ _ Hpre)
    as (created & Heq & Hlen & _ & Hitems).
  simpl in Heq. subst created.
  eexists _, dk, _. split; [exact Hk|]. split; [reflexivity|].
  simpl. split; [exact Hpre|]. split; [exact Hfail|]. exact Hitems.
Qed.

(** Every record the Index Planner resolves is in the store as resolved. *)
Lemma execute_present p kv i :
  i ∈ execute p kv → get (key i) kv = Some (value i, versionstamp i).
Proof.
  destruct p as [k|keyPrefix predicate]; simpl.
  - destruct (get k kv) as [[e v]|] eqn:Hg.
    + intros ->%list_elem_of_singleton. exact Hg.
    + intros Hi. by apply elem_of_nil in Hi.
  - intros [_ Hi]%list_elem_of_filter. unfold list_prefix in Hi.
    rewrite merge_sort_Permutation in Hi.
    apply list_elem_of_omap in Hi as ([k [e v]] & Hin & Hsome).
    apply elem_of_map_to_list in Hin.
    destruct (decide (k.1 = keyPrefix)); [|discriminate].
    injection Hsome as <-. exact Hin.
Qed.

(** [update] on keys that are in the store writes every item and returns
    every item, each with its new versionstamp. *)
Lemma update_present items : ∀ keys kv,
  length items = length keys →
  Forall (λ k, is_Some (get k kv)) keys →
  ∃ kv' updated, update items keys kv = (kv', Return updated) ∧ fmap fst updated = items.
Proof.
  induction items as [|item items IH]; intros [|k keys] kv Hlen Hall;
    try discriminate Hlen.
  - exists kv, []. done.
  - apply Forall_cons in Hall as [[[e0 v0] Hk] Hall]. simpl. rewrite Hk.
    unfold atomicApply. simpl.
    assert (check_holds kv (k, Some v0) = true) as ->.
    { unfold check_holds. simpl. rewrite Hk. by apply bool_decide_eq_true. }
    simpl.
    set (kv1 := {| entries := _; clock := _ |}).
    destruct (IH keys kv1) as (kv' & updated & Hrun & Hfst).
    + simpl in Hlen. lia.
    + eapply Forall_impl; [exact Hall|]. intros k' [x Hx]. unfold get, kv1. simpl.
      unfold apply_mutation. simpl.
      destruct (decide (k = k')) as [->|Hne].
      * rewrite lookup_insert_eq. by eexists.
      * rewrite lookup_insert_ne by done. by eexists.
    + exists kv', ((item, N.succ (clock kv)) :: updated).
      split; [|simpl; by f_equal].
      first [ rewrite (bind_Return _ _ _ _ _ Hrun) | unfold bind; rewrite Hrun ].
      reflexivity.
Qed.

(** On the modelled store, [updateMany] on a non-empty resolved set returns
    one record per resolved record, carrying its merged entity. *)
Lemma updateMany_returns_all_updated tableName tableDefinition updateArgs kv foundItems :
  whereToKeys tableName
    (encodeKeys tableName tableDefinition (default ∅ (UpdateArgs.where_ updateArgs)))
    (default ∅ (UpdateArgs.where_ updateArgs)) kv = (kv, Return foundItems) →
  foundItems ≠ [] →
  ∃ kv' updated,
    updateManyImpl tableName tableDefinition updateArgs kv = (kv', Return updated) ∧
    fmap fst updated
      = fmap (λ i, UpdateArgs.data updateArgs ∪ value i) foundItems.
Proof.
  intros Hw Hne.
  destruct (update_present
              (fmap (λ i, UpdateArgs.data updateArgs ∪ value i) foundItems)
              (fmap key foundItems) kv) as (kv' & updated & Hrun & Hfst).
  - by rewrite !length_fmap.
  - apply Forall_fmap, Forall_forall. intros i Hi. simpl.
    unfold whereToKeys in Hw. injection Hw as Hw. rewrite <- Hw in Hi.
    rewrite (execute_present _ _ _ Hi). by eexists.
  - exists kv', updated. split; [|exact Hfst]. rewrite <- Hrun.
    eapply eq_trans.
    + eapply updateManyImpl_resolved; [reflexivity|reflexivity|exact Hw].
    + by destruct foundItems.
Qed.

End SpecFacts.

(** * The scenarios *)

Module Witnesses.
Import SpecModel SpecFacts Scenario.

Ltac by_decide := apply (bool_decide_unpack _); exact I.

(** Scenario A: with [u1] in the store, creating [u2], which has the same
    email, is refused. *)
Lemma create_duplicate_key_scenario_A :
  (conforms (schema usersDef) u1 = true ∧
   (∀ k, k ∈ encodeKeys "users" usersDef u1 → get k kv0 = None) ∧
   ∃ kv1, createImpl (H := StrictModel.strict_keys_imports)
            "users" usersDef (CreateArgs.mk None u1) kv0
            = (kv1, Return (u1, 1%N)))
  ∧
  (conforms (schema usersDef) u2 = true ∧
   ("users_by_email", VStr "a@x.com") ∈ encodeKeys "users" usersDef u2 ∧
   is_Some (get ("users_by_email", VStr "a@x.com") kvA) ∧
   ∃ k', k' ∈ encodeKeys "users" usersDef u2 ∧ is_Some (get k' kvA) ∧
         createImpl (H := StrictModel.strict_keys_imports)
           "users" usersDef (CreateArgs.mk None u2) kvA
           = (kvA, Throw (DuplicateKeyError k')))
  ∧
  (createImpl (H := StrictModel.strict_keys_imports)
     "users" usersDef (CreateArgs.mk None u1) kv0 = (kvA, Return (u1, 1%N)) ∧
   ("email", mkField false true) ∈ schema usersDef ∧
   u1 !! "email" = Some (VStr "a@x.com") ∧
   u2 !! "email" = Some (VStr "a@x.com") ∧
   ∃ k', createImpl (H := StrictModel.strict_keys_imports)
           "users" usersDef (CreateArgs.mk None u2) kvA
           = (kvA, Throw (DuplicateKeyError k'))).
Proof.
  split; [|split].
  - split; [reflexivity|]. split; [reflexivity|].
    apply (proj1 (create_duplicate_key "users" usersDef (CreateArgs.mk None u1) kv0
                    eq_refl)).
    reflexivity.
  - split; [reflexivity|]. split; [by_decide|]. split; [by_decide|].
    apply (proj1 (proj2 (create_duplicate_key "users" usersDef
                           (CreateArgs.mk None u2) kvA eq_refl))
                 ("users_by_email", VStr "a@x.com")); by_decide.
  - split; [reflexivity|]. split; [by_decide|]. split; [reflexivity|]. split; [reflexivity|].
    apply (proj2 (proj2 (create_duplicate_key "users" usersDef
                           (CreateArgs.mk None u1) kv0 eq_refl))
                 kvA (u1, 1%N) (CreateArgs.mk None u2)
                 "email" (mkField false true) (VStr "a@x.com"));
      [reflexivity | reflexivity | by_decide | reflexivity | reflexivity | reflexivity].
Defined.

(** [createMany] of [u1], [u3], [u2] on the empty store fails at [u2] and
    leaves [u1] and [u3] committed. *)
Lemma createMany_prefix_committed_scenario :
  createManyImpl "users" usersDef (CreateManyArgs.mk None [u1; u3; u2]) kv0
    = (kvB, Throw (DuplicateKeyError ("users_by_email", VStr "a@x.com"))) ∧
  ∃ k data_k created,
    [u1; u3; u2] !! k = Some data_k ∧
    length created = k ∧
    createManyImpl "users" usersDef (CreateManyArgs.mk None (take k [u1; u3; u2])) kv0
      = (kvB, Return created) ∧
    createImpl "users" usersDef (CreateArgs.mk None data_k) kvB
      = (kvB, Throw (DuplicateKeyError ("users_by_email", VStr "a@x.com"))) ∧
    ∀ j data_j, take k [u1; u3; u2] !! j = Some data_j →
      ∃ v, created !! j = Some (data_j, v) ∧
           ∀ key, key ∈ encodeKeys "users" usersDef data_j →
                  get key kvB = Some (data_j, v).
Proof.
  split; [reflexivity|].
  apply (createMany_prefix_committed "users" usersDef
           (CreateManyArgs.mk None [u1; u3; u2]) kv0 kvB
           (DuplicateKeyError ("users_by_email", VStr "a@x.com"))).
  reflexivity.
Defined.

(** C3, as stated, fails: no function of the outcome of [createMany] gives
    the items applied before the failure.  [createMany] of [u1], [u1] and of
    [u1z], [u1] end with the same error after applying different items. *)
Lemma createMany_applied_items_not_returned :
  ¬ ∃ recover : Outcome (list Item) → list Item,
      ∀ createManyArgs kv,
        is_Throw (snd (createManyImpl "users" usersDef createManyArgs kv)) = true →
        recover (snd (createManyImpl "users" usersDef createManyArgs kv))
        = appliedItems "users" usersDef (CreateManyArgs.select createManyArgs)
            (CreateManyArgs.data createManyArgs) kv.
Proof.
  intros [recover Hrec].
  pose proof (Hrec (CreateManyArgs.mk None [u1; u1]) kv0) as HA.
  pose proof (Hrec (CreateManyArgs.mk None [u1z; u1]) kv0) as HB.
  assert (snd (createManyImpl "users" usersDef (CreateManyArgs.mk None [u1; u1]) kv0)
          = Throw (DuplicateKeyError ("users", VStr "1"))) as EA by reflexivity.
  assert (snd (createManyImpl "users" usersDef (CreateManyArgs.mk None [u1z; u1]) kv0)
          = Throw (DuplicateKeyError ("users", VStr "1"))) as EB by reflexivity.
  rewrite EA in HA. rewrite EB in HB.
  specialize (HA eq_refl). specialize (HB eq_refl). rewrite HA in HB.
  apply (f_equal (λ l, head l ≫= λ x, fst x !! "email")) in HB.
  vm_compute in HB. discriminate HB.
Qed.

(** A failing [createMany], and an [updateMany] and a [deleteMany] on the id
    of [u1]. *)
Lemma batch_failure_is_first_error_scenario :
  (createManyImpl "users" usersDef (CreateManyArgs.mk None [u1; u3; u2]) kv0
     = (kvB, Throw (DuplicateKeyError ("users_by_email", VStr "a@x.com"))) ∧
   ∃ data_k kvk,
     [u1; u3; u2] !! length (appliedItems "users" usersDef None [u1; u3; u2] kv0)
       = Some data_k ∧
     createManyImpl "users" usersDef
       (CreateManyArgs.mk None
          (take (length (appliedItems "users" usersDef None [u1; u3; u2] kv0))
                [u1; u3; u2])) kv0
       = (kvk, Return (appliedItems "users" usersDef None [u1; u3; u2] kv0)) ∧
     createImpl "users" usersDef (CreateArgs.mk None data_k) kvk
       = (kvB, Throw (DuplicateKeyError ("users_by_email", VStr "a@x.com"))))
  ∧
  (whereToKeys "users" (encodeKeys "users" usersDef {[ "id" := VStr "1" ]})
     {[ "id" := VStr "1" ]} kvB = (kvB, Return [entry1]) ∧
   [entry1] ≠ [] ∧
   updateManyImpl "users" usersDef (updateEmail "1") kvB
     = update [ {[ "email" := VStr "b@x.com" ]} ∪ u1 ] [("users", VStr "1")] kvB)
  ∧
  (deleteManyImpl "users" usersDef (QueryArgs.mk (whereId "1") None) kvB
     = remove [("users", VStr "1")] kvB).
Proof.
  split; [|split].
  - split; [reflexivity|].
    apply (proj1 (batch_failure_is_first_error (H := spec_imports) "users" usersDef)
                 (CreateManyArgs.mk None [u1; u3; u2]) kv0 kvB).
    reflexivity.
  - split; [reflexivity|]. split; [discriminate|].
    apply (proj1 (proj2 (batch_failure_is_first_error (H := spec_imports) "users" usersDef))
                 (updateEmail "1") kvB
                 (accessKeys (schema usersDef) {[ "id" := VStr "1" ]})
                 (encodeKeys "users" usersDef {[ "id" := VStr "1" ]})
                 kvB [entry1]);
      [reflexivity | reflexivity | reflexivity | discriminate].
  - apply (proj2 (proj2 (batch_failure_is_first_error (H := spec_imports) "users" usersDef))
                 (QueryArgs.mk (whereId "1") None) kvB
                 (accessKeys (schema usersDef) {[ "id" := VStr "1" ]})
                 (encodeKeys "users" usersDef {[ "id" := VStr "1" ]})
                 kvB [entry1]);
      [reflexivity | reflexivity | reflexivity].
Defined.

(** [findMany] without predicate on the store holding [u1] and [u3], and
    [findFirst] on the same arguments. *)
Lemma findFirst_is_head_of_findMany_scenario :
  findManyImpl "users" usersDef (QueryArgs.mk None None) kvB
    = (kvB, Return [(u1, 1%N); (u3, 2%N)]) ∧
  findFirstImpl "users" usersDef (QueryArgs.mk None None) kvB
    = (kvB, Return (Some (u1, 1%N))) ∧
  ∀ found, Return [(u1, 1%N); (u3, 2%N)] = Return found →
    (findFirstImpl "users" usersDef (QueryArgs.mk None None) kvB = (kvB, Return None)
     ↔ found = []).
Proof.
  split; [reflexivity|].
  apply (findFirst_is_head_of_findMany "users" usersDef (QueryArgs.mk None None)
           kvB kvB (Return [(u1, 1%N); (u3, 2%N)])).
  reflexivity.
Defined.

(** [updateMany] on an id that no record has, and on the id of [u1]. *)
Lemma updateMany_zero_rows_error_scenario :
  (whereToKeys "users" (encodeKeys "users" usersDef {[ "id" := VStr "9" ]})
     {[ "id" := VStr "9" ]} kvB = (kvB, Return []) ∧
   updateManyImpl "users" usersDef (updateEmail "9") kvB
     = (kvB, Throw UpdateZeroRowsError))
  ∧
  (whereToKeys "users" (encodeKeys "users" usersDef {[ "id" := VStr "1" ]})
     {[ "id" := VStr "1" ]} kvB = (kvB, Return [entry1]) ∧
   [entry1] ≠ [] ∧
   updateManyImpl "users" usersDef (updateEmail "1") kvB
     = update [ {[ "email" := VStr "b@x.com" ]} ∪ u1 ] [("users", VStr "1")] kvB ∧
   updateManyImpl "users" usersDef (updateEmail "1") kvB = (kvC, Return [(u1b, 3%N)])).
Proof.
  split.
  - split; [reflexivity|].
    apply (proj1 (updateMany_zero_rows_error (H := spec_imports) "users" usersDef
                    (updateEmail "9") kvB
                    (accessKeys (schema usersDef) {[ "id" := VStr "9" ]})
                    (encodeKeys "users" usersDef {[ "id" := VStr "9" ]})
                    kvB [] eq_refl eq_refl ltac:(reflexivity))).
    reflexivity.
  - split; [reflexivity|]. split; [discriminate|]. split; [|reflexivity].
    apply (proj2 (updateMany_zero_rows_error (H := spec_imports) "users" usersDef
                    (updateEmail "1") kvB
                    (accessKeys (schema usersDef) {[ "id" := VStr "1" ]})
                    (encodeKeys "users" usersDef {[ "id" := VStr "1" ]})
                    kvB [entry1] eq_refl eq_refl ltac:(reflexivity))).
    discriminate.
Defined.

(** C6, as stated, fails: when no record matches, [update] throws the
    zero-rows error of [updateMany], not an error of its own. *)
Lemma update_zero_rows_throws_error_of_updateMany :
  updateManyImpl "users" usersDef (updateEmail "9") kvB
    = (kvB, Throw UpdateZeroRowsError) ∧
  updateImpl "users" usersDef (updateEmail "9") kvB
    = (kvB, Throw UpdateZeroRowsError) ∧
  updateImpl "users" usersDef (updateEmail "9") kvB ≠ (kvB, Throw NoMatchError).
Proof.
  assert (updateImpl "users" usersDef (updateEmail "9") kvB
          = (kvB, Throw UpdateZeroRowsError)) as Hu by reflexivity.
  split; [reflexivity|]. split; [exact Hu|].
  rewrite Hu. intros Heq. discriminate Heq.
Qed.

(** [update] on the id of [u1], and on an id that no record has. *)
Lemma update_is_head_of_updateMany_scenario :
  (updateManyImpl "users" usersDef (updateEmail "1") kvB = (kvC, Return [(u1b, 3%N)]) ∧
   updateImpl "users" usersDef (updateEmail "1") kvB = (kvC, Return (Some (u1b, 3%N))))
  ∧
  (updateManyImpl "users" usersDef (updateEmail "9") kvB
     = (kvB, Throw UpdateZeroRowsError) ∧
   updateImpl "users" usersDef (updateEmail "9") kvB
     = (kvB, Throw UpdateZeroRowsError)).
Proof.
  split.
  - split; [reflexivity|].
    apply (proj1 (update_is_head_of_updateMany (H := spec_imports)
                    "users" usersDef (updateEmail "1")
                    kvB kvC (Return [(u1b, 3%N)]) ltac:(reflexivity))).
  - split; [reflexivity|].
    apply (proj2 (update_is_head_of_updateMany (H := spec_imports)
                    "users" usersDef (updateEmail "9")
                    kvB kvB (Throw UpdateZeroRowsError) ltac:(reflexivity))
                 UpdateZeroRowsError eq_refl).
Defined.

(** Scenario C: [deleteMany] with an empty predicate on the empty store
    resolves to no record and is the call of [remove] on no key;
    [updateMany] with the same predicate throws. *)
Lemma deleteMany_has_no_zero_rows_guard_scenario_C :
  whereToKeys "users" (encodeKeys "users" usersDef ∅) ∅ kv0 = (kv0, Return []) ∧
  (∀ select,
     deleteManyImpl "users" usersDef (QueryArgs.mk (Some ∅) select) kv0
       = remove [] kv0 ∧
     deleteImpl "users" usersDef (QueryArgs.mk (Some ∅) select) kv0
       = remove [] kv0) ∧
  (∀ data select,
     updateManyImpl "users" usersDef (UpdateArgs.mk (Some ∅) data select) kv0
       = (kv0, Throw UpdateZeroRowsError)).
Proof.
  split; [reflexivity|].
  apply (deleteMany_has_no_zero_rows_guard (H := spec_imports) "users" usersDef ∅
           (accessKeys (schema usersDef) ∅) (encodeKeys "users" usersDef ∅) kv0 kv0);
    reflexivity.
Defined.

(** The update of the email of [u1]: the written entity has the new email
    and the id of the record. *)
Lemma update_writes_shallow_merge_scenario :
  whereToKeys "users" (encodeKeys "users" usersDef {[ "id" := VStr "1" ]})
    {[ "id" := VStr "1" ]} kvB = (kvB, Return [entry1]) ∧
  [entry1] ≠ [] ∧
  ∃ written,
    updateManyImpl "users" usersDef (updateEmail "1") kvB
      = update written [("users", VStr "1")] kvB ∧
    updateImpl "users" usersDef (updateEmail "1") kvB
      = (let* updated := update written [("users", VStr "1")] in ret (head updated)) kvB ∧
    written = [UpdatedItem.value (merge (updateEmail "1") entry1)] ∧
    Forall2 (λ existingItem w, ∀ f,
               (∀ v, UpdateArgs.data (updateEmail "1") !! f = Some v → w !! f = Some v) ∧
               (UpdateArgs.data (updateEmail "1") !! f = None →
                w !! f = value existingItem !! f))
            [entry1] written.
Proof.
  split; [reflexivity|]. split; [discriminate|].
  apply (update_writes_shallow_merge (H := spec_imports) "users" usersDef
           (updateEmail "1") kvB
           (accessKeys (schema usersDef) {[ "id" := VStr "1" ]})
           (encodeKeys "users" usersDef {[ "id" := VStr "1" ]})
           kvB [entry1] eq_refl eq_refl ltac:(reflexivity)).
  discriminate.
Defined.

(** C9, as stated, fails: when [data] carries a versionstamp, that one is
    paired with the merged entity, not the one read with the record. *)
Lemma merge_prefers_versionstamp_of_data :
  versionstamp entry1 = 1%N ∧
  UpdatedItem.versionstamp (merge updateStamped entry1) = VStamp 7%N ∧
  UpdatedItem.versionstamp (merge updateStamped entry1) ≠ VStamp (versionstamp entry1).
Proof.
  split; [reflexivity|]. split; [reflexivity|].
  assert (UpdatedItem.versionstamp (merge updateStamped entry1) = VStamp 7%N) as ->
    by reflexivity.
  simpl. intros Heq. discriminate Heq.
Qed.

(** The token paired with the merged [u1], with and without a versionstamp
    in [data]. *)
Lemma merge_versionstamp_scenario :
  (UpdateArgs.data updateStamped !! "versionstamp" = Some (VStamp 7%N) ∧
   VStamp 7%N ≠ VNull ∧ VStamp 7%N ≠ VUndefined ∧
   UpdatedItem.versionstamp (merge updateStamped entry1) = VStamp 7%N)
  ∧
  (UpdateArgs.data (updateEmail "1") !! "versionstamp" = None ∧
   UpdatedItem.versionstamp (merge (updateEmail "1") entry1) = VStamp 1%N).
Proof.
  split.
  - split; [reflexivity|]. split; [discriminate|]. split; [discriminate|].
    apply (proj1 (merge_versionstamp updateStamped entry1) (VStamp 7%N));
      [reflexivity | discriminate | discriminate].
  - split; [reflexivity|].
    apply (proj2 (merge_versionstamp (updateEmail "1") entry1)).
    left. reflexivity.
Defined.

(** [delete] and [deleteMany] on the id of [u1]. *)
Lemma delete_eq_deleteMany_scenario :
  whereToKeys "users" (encodeKeys "users" usersDef {[ "id" := VStr "1" ]})
    {[ "id" := VStr "1" ]} kvB = (kvB, Return [entry1]) ∧
  deleteImpl "users" usersDef (QueryArgs.mk (whereId "1") None) kvB
    = remove [("users", VStr "1")] kvB ∧
  deleteManyImpl "users" usersDef (QueryArgs.mk (whereId "1") None) kvB
    = remove [("users", VStr "1")] kvB ∧
  remove [("users", VStr "1")] kvB = (kvD, Return tt).
Proof.
  split; [reflexivity|].
  destruct (proj2 (delete_eq_deleteMany (H := spec_imports) "users" usersDef
                     (QueryArgs.mk (whereId "1") None) kvB)
                  (accessKeys (schema usersDef) {[ "id" := VStr "1" ]})
                  (encodeKeys "users" usersDef {[ "id" := VStr "1" ]})
                  kvB [entry1] eq_refl eq_refl eq_refl) as [Hd Hm].
  split; [exact Hd|]. split; [exact Hm|]. reflexivity.
Defined.

End Witnesses.

(** * Scenarios for the further properties *)

Module ExtraWitnesses.
Import SpecModel SpecFacts Scenario ScenarioExtra.

(** [createMany] of [u1], [u3] on the empty store. *)
Lemma createMany_success_all_items_scenario :
  createManyImpl "users" usersDef (CreateManyArgs.mk None [u1; u3]) kv0
    = (kvB, Return [(u1, 1%N); (u3, 2%N)]) ∧
  length [(u1, 1%N); (u3, 2%N)] = length [u1; u3] ∧
  [(u1, 1%N); (u3, 2%N)] = appliedItems "users" usersDef None [u1; u3] kv0.
Proof.
  split; [reflexivity|].
  apply (createMany_success_all_items (H := spec_imports) "users" usersDef
           (CreateManyArgs.mk None [u1; u3]) kv0 kvB).
  reflexivity.
Defined.

(** [createMany] of [u1], [u1] fails at the second item, whatever follows. *)
Lemma createMany_stops_at_first_failure_scenario :
  createManyImpl "users" usersDef (CreateManyArgs.mk None [u1; u1]) kv0
    = (kvA, Throw (DuplicateKeyError ("users", VStr "1"))) ∧
  ∀ ys, createManyImpl "users" usersDef (CreateManyArgs.mk None ([u1; u1] ++ ys)) kv0
          = (kvA, Throw (DuplicateKeyError ("users", VStr "1"))).
Proof.
  split; [reflexivity|].
  apply (createMany_stops_at_first_failure (H := spec_imports) "users" usersDef
           None [u1; u1] kv0 kvA).
  reflexivity.
Defined.

(** With the strict Key Encoder, an entity or a predicate without the
    primary-key field fails every verb before the store is reached. *)
Lemma key_derivation_error_leaves_store_scenario :
  StrictModel.schemaToKeys (schema usersDef) noId = Throw SchemaMismatchError ∧
  (∀ select kv,
     createImpl (H := StrictModel.strict_keys_imports) "users" usersDef
       (CreateArgs.mk select noId) kv = (kv, Throw SchemaMismatchError)) ∧
  (∀ select rest kv,
     createManyImpl (H := StrictModel.strict_keys_imports) "users" usersDef
       (CreateManyArgs.mk select (noId :: rest)) kv = (kv, Throw SchemaMismatchError)) ∧
  (∀ select kv,
     deleteImpl (H := StrictModel.strict_keys_imports) "users" usersDef
       (QueryArgs.mk (Some noId) select) kv = (kv, Throw SchemaMismatchError) ∧
     deleteManyImpl (H := StrictModel.strict_keys_imports) "users" usersDef
       (QueryArgs.mk (Some noId) select) kv = (kv, Throw SchemaMismatchError)) ∧
  (∀ data select kv,
     updateManyImpl (H := StrictModel.strict_keys_imports) "users" usersDef
       (UpdateArgs.mk (Some noId) data select) kv = (kv, Throw SchemaMismatchError) ∧
     updateImpl (H := StrictModel.strict_keys_imports) "users" usersDef
       (UpdateArgs.mk (Some noId) data select) kv = (kv, Throw SchemaMismatchError)).
Proof.
  split; [reflexivity|].
  apply (key_derivation_error_leaves_store (H := StrictModel.strict_keys_imports)
           "users" usersDef noId SchemaMismatchError).
  left. reflexivity.
Defined.

(** With the strict lookup, a predicate that constrains no key field fails
    [delete] and [update] at the resolution. *)
Lemma resolution_error_propagates_scenario :
  StrictModel.whereToKeys "users" [] ∅ kvB = (kvB, Throw InvalidAccessKeyError) ∧
  (∀ select,
     deleteImpl (H := StrictModel.strict_lookup_imports) "users" usersDef
       (QueryArgs.mk (Some ∅) select) kvB = (kvB, Throw InvalidAccessKeyError) ∧
     deleteManyImpl (H := StrictModel.strict_lookup_imports) "users" usersDef
       (QueryArgs.mk (Some ∅) select) kvB = (kvB, Throw InvalidAccessKeyError)) ∧
  (∀ data select,
     updateManyImpl (H := StrictModel.strict_lookup_imports) "users" usersDef
       (UpdateArgs.mk (Some ∅) data select) kvB = (kvB, Throw InvalidAccessKeyError) ∧
     updateImpl (H := StrictModel.strict_lookup_imports) "users" usersDef
       (UpdateArgs.mk (Some ∅) data select) kvB = (kvB, Throw InvalidAccessKeyError)).
Proof.
  split; [reflexivity|].
  apply (resolution_error_propagates (H := StrictModel.strict_lookup_imports)
           "users" usersDef ∅ [] [] kvB kvB InvalidAccessKeyError);
    reflexivity.
Defined.

(** The record of [u1] read under versionstamp 1 and under versionstamp 5
    gives the same call of [update]. *)
Lemma update_call_ignores_versionstamps_scenario :
  Forall2 (λ a b, key a = key b ∧ value a = value b) [entry1] [entry1'] ∧
  fmap UpdatedItem.value (fmap (merge (updateEmail "1")) [entry1])
    = fmap UpdatedItem.value (fmap (merge (updateEmail "1")) [entry1']) ∧
  fmap key [entry1] = fmap key [entry1'] ∧
  ∀ kv, update (fmap UpdatedItem.value (fmap (merge (updateEmail "1")) [entry1]))
               (fmap key [entry1]) kv
        = update (fmap UpdatedItem.value (fmap (merge (updateEmail "1")) [entry1']))
                 (fmap key [entry1']) kv.
Proof.
  assert (Forall2 (λ a b, key a = key b ∧ value a = value b) [entry1] [entry1'])
    as Hagree by (repeat constructor).
  split; [exact Hagree|].
  exact (update_call_ignores_versionstamps (H := spec_imports)
           (updateEmail "1") [entry1] [entry1'] Hagree).
Defined.

(** The database of the schema with the table [users] has the methods of
    [users] under that name. *)
Lemma createPentagon_table_methods_scenario :
  "users" ≠ "getKv" ∧
  createPentagon (H := spec_imports) "kv" dbSchema !! "users"
    = Some (Methods (tableMethods "users" usersDef)).
Proof.
  split; [discriminate|].
  apply (createPentagon_table_methods (H := spec_imports) "kv" dbSchema "users").
  discriminate.
Defined.

End ExtraWitnesses.
